(** * aiomanhole: the interactive session protocol

    A shallow embedding of [aiomanhole/__init__.py]: the buffering command
    compiler, the per-connection interpreter loop, the threaded variant with
    its bounded wait, the interpreter factory with its shared or per-session
    namespace, and [start_manhole].

    Conventions of the embedding:
    - Python [bytes] are lists of [Byte.byte]; a Python [str] is represented
      by the string of its UTF-8 bytes, so [str.encode('utf8')] is total and
      [bytes.decode('utf8')] is a validity check.
    - The [BytesIO] of the compiler is only ever written at its end and
      emptied by [seek(0); truncate(0)], so it is modelled by its contents.
    - Python exceptions are modelled by their class, with the builtin class
      hierarchy deciding which [except] clause catches them.
    - What the host runtime supplies (the [codeop] parser, [repr],
      [traceback.format_exc], the prompts) is an interface, [Host]. *)

From Stdlib Require Import ZArith NArith Strings.Byte.
From stdpp Require Import gmap strings list fin_maps pretty.

Open Scope Z_scope.

(** ** Bytes and text *)

Abbreviation bytes := (list Byte.byte).

Definition NL : Byte.byte := Byte.x0a.

Definition in_range (lo hi : N) (b : Byte.byte) : bool :=
  ((lo <=? Byte.to_N b) && (Byte.to_N b <=? hi))%N.

Definition continuation (b : Byte.byte) : bool := in_range 128 191 b.

(** Second byte of a three-byte sequence: E0 excludes overlong forms, ED
    excludes the surrogates. *)
Definition second_of_three (b0 b1 : Byte.byte) : bool :=
  if in_range 224 224 b0 then in_range 160 191 b1
  else if in_range 237 237 b0 then in_range 128 159 b1
  else continuation b1.

(** Second byte of a four-byte sequence: F0 excludes overlong forms, F4
    stops at U+10FFFF. *)
Definition second_of_four (b0 b1 : Byte.byte) : bool :=
  if in_range 240 240 b0 then in_range 144 191 b1
  else if in_range 244 244 b0 then in_range 128 143 b1
  else continuation b1.

(** Strict UTF-8 well-formedness, as enforced by [bytes.decode('utf8')]. *)
Fixpoint utf8_valid (bs : bytes) : bool :=
  match bs with
  | [] => true
  | b0 :: r0 =>
    if in_range 0 127 b0 then utf8_valid r0
    else
      match r0 with
      | [] => false
      | b1 :: r1 =>
        if in_range 194 223 b0 then continuation b1 && utf8_valid r1
        else
          match r1 with
          | [] => false
          | b2 :: r2 =>
            if in_range 224 239 b0
            then second_of_three b0 b1 && continuation b2 && utf8_valid r2
            else
              match r2 with
              | [] => false
              | b3 :: r3 =>
                in_range 240 244 b0 && second_of_four b0 b1
                && continuation b2 && continuation b3 && utf8_valid r3
              end
          end
      end
  end.

(** [bytes.decode('utf8')]: [None] stands for [UnicodeDecodeError]. *)
Definition decode_utf8 (bs : bytes) : option string :=
  if utf8_valid bs then Some (String.string_of_list_byte bs) else None.

(** [str.encode('utf8')]. *)
Definition encode_utf8 (s : string) : bytes := String.list_byte_of_string s.

(** The text of a line terminator. *)
Definition newline : string := String (Ascii.ascii_of_byte NL) EmptyString.

(** [bool(b)] for a bytes or str object: non-empty. *)
Definition truthy {A} (l : list A) : bool :=
  match l with [] => false | _ :: _ => true end.

Definition str_truthy (s : string) : bool :=
  match s with EmptyString => false | String _ _ => true end.

(** [line.rstrip(b'\n')]: drop every trailing newline byte. *)
Fixpoint rstrip_nl (line : bytes) : bytes :=
  match line with
  | [] => []
  | b :: rest =>
    match rstrip_nl rest with
    | [] => if Byte.eqb b NL then [] else [b]
    | rest' => b :: rest'
    end
  end.

(** ** Exceptions *)

Inductive exc_class :=
  | BaseException
  | SystemExit
  | KeyboardInterrupt
  | Exception
  | SyntaxError
  | IndentationError
  | ValueError
  | UnicodeError
  | UnicodeDecodeError
  | OverflowError
  | NameError
  | ZeroDivisionError
  | OSError
  | ConnectionError
  | ConnectionResetError
  | TimeoutError.

#[global] Instance exc_class_eq_dec : EqDecision exc_class.
Proof. solve_decision. Defined.

(** The base class of each class ([asyncio.TimeoutError] derives from
    [Exception], directly or through [OSError] depending on the release;
    only the former matters below). *)
Definition base (c : exc_class) : option exc_class :=
  match c with
  | BaseException => None
  | SystemExit | KeyboardInterrupt | Exception => Some BaseException
  | SyntaxError | ValueError | OverflowError | NameError
  | ZeroDivisionError | OSError | TimeoutError => Some Exception
  | IndentationError => Some SyntaxError
  | UnicodeError => Some ValueError
  | UnicodeDecodeError => Some UnicodeError
  | ConnectionError => Some OSError
  | ConnectionResetError => Some ConnectionError
  end.

Fixpoint mro_from (depth : nat) (c : exc_class) : list exc_class :=
  c :: match depth, base c with
       | S d, Some p => mro_from d p
       | _, _ => []
       end.

Definition mro : exc_class -> list exc_class := mro_from 5.

(** An exception value is identified with its class. *)
Abbreviation exn := exc_class.

(** [isinstance(e, C)], the test of an [except C:] clause. *)
Definition isinstance (e : exn) (C : exc_class) : bool :=
  bool_decide (C ∈ mro e).

(** The outcome of a call that may raise. *)
Inductive result (A : Type) :=
  | Return (a : A)
  | Raise (e : exn).
Arguments Return {A} a.
Arguments Raise {A} e.

(** ** The host runtime *)

(** What [codeop.CommandCompiler.__call__] answers on a source text: a code
    object, [None] when more input is needed, or an exception. *)
Inductive compiled (code : Type) :=
  | Code (c : code)
  | Incomplete
  | CompileError (e : exn).
Arguments Code {code} c.
Arguments Incomplete {code}.
Arguments CompileError {code} e.

(** Object identities; a Python value is a reference to an object. *)
Abbreviation loc := positive.

Class Host := {
  code : Type;
  command_compiler : string -> compiled code;
  repr : loc -> string;
  format_exc : exn -> string;
  ps1 : string;
  ps2 : string;
}.

(** ** StatefulCommandCompiler *)

Module StatefulCommandCompiler.
Section Compiler.
Context `{Host}.

Record t := { buf : bytes }.

Definition init : t := {| buf := [] |}.

Definition getvalue (self : t) : bytes := buf self.

Definition write (data : bytes) (self : t) : t :=
  {| buf := buf self ++ data |}.

Definition is_partial_command (self : t) : bool :=
  truthy (getvalue self).

Definition reset (self : t) : t := {| buf := [] |}.

Definition call (source : bytes) (self : t) : result (option code) * t :=
  let self := if is_partial_command self then write [NL] self else self in
  let self := write source self in
  match decode_utf8 (getvalue self) with
  | None => (Raise UnicodeDecodeError, self)
  | Some text =>
    match command_compiler text with
    | CompileError e => (Raise e, self)
    | Incomplete => (Return None, self)
    | Code codeobj => (Return (Some codeobj), reset self)
    end
  end.

(** One call per line, in order; the answers of all calls are kept. *)
Fixpoint feed_lines (lines : list bytes) (self : t)
  : list (result (option code)) * t :=
  match lines with
  | [] => ([], self)
  | line :: rest =>
    let '(r, self) := call line self in
    let '(rs, self) := feed_lines rest self in
    (r :: rs, self)
  end.
End Compiler.
End StatefulCommandCompiler.

(** The text of several lines: the lines joined by newlines. *)
Fixpoint join_lines (lines : list bytes) : bytes :=
  match lines with
  | [] => []
  | [line] => line
  | line :: rest => line ++ NL :: join_lines rest
  end.

(** ** Objects and namespaces *)

(** The heap of Python objects: dictionaries by their items, anything else
    by an opaque tag. A namespace is a reference to a dictionary. *)
Inductive pyobj :=
  | PyDict (items : gmap string loc)
  | PyOther (tag : Z).

Abbreviation heap := (gmap loc pyobj).

Definition dict_items (h : heap) (d : loc) : gmap string loc :=
  match h !! d with
  | Some (PyDict items) => items
  | _ => ∅
  end.

(** A new dictionary object, at an identity no live object has. *)
Definition dict_new (items : gmap string loc) (h : heap) : loc * heap :=
  let d := fresh (dom h) in (d, <[d := PyDict items]> h).

(** [dict(d)]: a new dictionary with the items of [d]. *)
Definition dict_copy (d : loc) (h : heap) : loc * heap :=
  dict_new (dict_items h d) h.

(** [d[k] = v]. *)
Definition dict_setitem (d : loc) (k : string) (v : loc) (h : heap) : heap :=
  match h !! d with
  | Some (PyDict items) => <[d := PyDict (<[k := v]> items)]> h
  | _ => h
  end.

(** [d.get(k)]. *)
Definition dict_get (d : loc) (k : string) (h : heap) : option loc :=
  dict_items h d !! k.

(** [bool(d)] for a dictionary. *)
Definition dict_truthy (d : loc) (h : heap) : bool :=
  negb (bool_decide (dict_items h d = ∅)).

(** ** Executions and waiting *)

(** What [eval(codeobj, namespace)] does when it is run: how long it takes,
    what it returns ([None] is Python's [None]) or raises, and what it
    prints meanwhile. *)
Record job := {
  duration : Z;
  outcome : result (option loc);
  output : string;
}.

(** The result of awaiting: how long the caller waited and what it got. *)
Record waited := {
  elapsed : Z;
  answer : result (option loc);
}.

(** [await task] for a task running [j] to its end. *)
Definition await (j : job) : waited :=
  {| elapsed := duration j; answer := outcome j |}.

(** [await asyncio.wait_for(task, timeout)] for a task just submitted:
    a timeout that is not positive expires at once, otherwise the task's
    answer if it is there in time and [TimeoutError] at the bound. *)
Definition wait_for (j : job) (timeout : Z) : waited :=
  if timeout <=? 0 then {| elapsed := 0; answer := Raise TimeoutError |}
  else if duration j <=? timeout then await j
  else {| elapsed := timeout; answer := Raise TimeoutError |}.

(** The [banner] argument: [Union[None, bytes, str]]. *)
Inductive banner_t :=
  | BannerNone
  | BannerBytes (b : bytes)
  | BannerStr (s : string).

(** ** InteractiveInterpreter *)

Module InteractiveInterpreter.

(** The interpreter object together with the connection it serves: what
    the writer has been given, whether it was closed, and the tracebacks
    printed to the process's stderr. [real_exec] is the [_real_exec]
    method the object's class provides. *)
Record t := {
  namespace : loc;
  banner : bytes;
  compiler : StatefulCommandCompiler.t;
  real_exec : job -> waited;
  written : list bytes;
  closed : bool;
  printed : list exn;
}.

Definition set_compiler (c : StatefulCommandCompiler.t) (self : t) : t :=
  {| namespace := namespace self; banner := banner self; compiler := c;
     real_exec := real_exec self; written := written self;
     closed := closed self; printed := printed self |}.

Definition set_real_exec (f : job -> waited) (self : t) : t :=
  {| namespace := namespace self; banner := banner self;
     compiler := compiler self; real_exec := f; written := written self;
     closed := closed self; printed := printed self |}.

Definition set_written (w : list bytes) (self : t) : t :=
  {| namespace := namespace self; banner := banner self;
     compiler := compiler self; real_exec := real_exec self; written := w;
     closed := closed self; printed := printed self |}.

Definition set_closed (b : bool) (self : t) : t :=
  {| namespace := namespace self; banner := banner self;
     compiler := compiler self; real_exec := real_exec self;
     written := written self; closed := b; printed := printed self |}.

Definition set_printed (p : list exn) (self : t) : t :=
  {| namespace := namespace self; banner := banner self;
     compiler := compiler self; real_exec := real_exec self;
     written := written self; closed := closed self; printed := p |}.

(** Methods are state transformers that return or raise; the state
    reached when an exception is raised is kept. *)
Definition M (A : Type) : Type := t -> result A * t.

Definition ret {A} (a : A) : M A := fun self => (Return a, self).

Definition raise {A} (e : exn) : M A := fun self => (Raise e, self).

Definition bind {A B} (m : M A) (k : A -> M B) : M B :=
  fun self =>
    match m self with
    | (Return a, self) => k a self
    | (Raise e, self) => (Raise e, self)
    end.

(** [try: m  except C: handler]. *)
Definition try_except {A} (m : M A) (C : exc_class) (handler : exn -> M A)
  : M A :=
  fun self =>
    match m self with
    | (Raise e, self') =>
      if isinstance e C then handler e self' else (Raise e, self')
    | r => r
    end.

Declare Scope py_scope.
Delimit Scope py_scope with py.
Notation "'let*' x ':=' m 'in' k" := (bind m (fun x => k))
  (at level 10, x name, m at level 100, k at level 200) : py_scope.
Notation "m ;; k" := (bind m (fun _ => k))
  (at level 100, k at level 200, right associativity) : py_scope.
Open Scope py_scope.

(** [self.writer.write(data)]. *)
Definition writer_write (data : bytes) : M unit :=
  fun self => (Return tt, set_written (written self ++ [data]) self).

(** [await self.writer.drain()]; the transport decides whether it raises. *)
Definition writer_drain (failure : option exn) : M unit :=
  match failure with
  | None => ret tt
  | Some e => raise e
  end.

(** [writer.close()]. *)
Definition writer_close : M unit :=
  fun self => (Return tt, set_closed true self).

(** [traceback.print_exc()]. *)
Definition print_exc (e : exn) : M unit :=
  fun self => (Return tt, set_printed (printed self ++ [e]) self).

Definition get_banner (banner : banner_t) : bytes :=
  match banner with
  | BannerBytes b => b
  | BannerStr s => encode_utf8 s
  | BannerNone => []
  end.

(** [InteractiveInterpreter._real_exec]: [eval] on the spot. *)
Definition _real_exec (j : job) : waited := await j.

Definition init (namespace : loc) (banner : banner_t) : t :=
  {| namespace := namespace; banner := get_banner banner;
     compiler := StatefulCommandCompiler.init; real_exec := _real_exec;
     written := []; closed := false; printed := [] |}.

Section Interpreter.
Context `{Host}.

(** What the outside world does during one pass of the command loop: the
    fate of the two drains, the line the reader yields, and the execution
    a code object stands for in a namespace. *)
Record turn := {
  prompt_drain : option exn;
  readline : result bytes;
  run : code -> loc -> job;
  reply_drain : option exn;
}.

Definition attempt_compile (line : bytes) : M (option code) :=
  fun self =>
    let '(r, c) := StatefulCommandCompiler.call line (compiler self) in
    (r, set_compiler c self).

Definition send_exception (e : exn) (drain : option exn) : M unit :=
  (fun self =>
     (Return tt,
      set_compiler (StatefulCommandCompiler.reset (compiler self)) self)) ;;
  writer_write (encode_utf8 (format_exc e)) ;;
  writer_drain drain.

(** The captured stdout is returned with the value; it is lost when the
    execution raises. *)
Definition attempt_exec (j : job) : M (option loc * string) :=
  fun self =>
    match answer (real_exec self j) with
    | Return value => (Return (value, output j), self)
    | Raise e => (Raise e, self)
    end.

Definition send_output (value : option loc) (stdout : string)
    (drain : option exn) : M unit :=
  match value with
  | Some v => writer_write (encode_utf8 (repr v +:+ newline))
  | None => ret tt
  end ;;
  (if str_truthy stdout then writer_write (encode_utf8 stdout) else ret tt) ;;
  writer_drain drain.

Definition run_command (codeobj : code) (w : turn) : M unit :=
  fun self =>
    match attempt_exec (run w codeobj (namespace self)) self with
    | (Raise e, self') =>
      if isinstance e Exception then send_exception e (reply_drain w) self'
      else (Raise e, self')
    | (Return (value, stdout), self') =>
      send_output value stdout (reply_drain w) self'
    end.

Definition write_prompt (drain : option exn) : M unit :=
  (fun self =>
     if StatefulCommandCompiler.is_partial_command (compiler self)
     then writer_write (encode_utf8 ps2) self
     else writer_write (encode_utf8 ps1) self) ;;
  writer_drain drain.

Definition read_command (w : turn) : M (option code) :=
  let* line := (fun self => (readline w, self)) in
  if truthy line then
    try_except (attempt_compile (rstrip_nl line)) SyntaxError
      (fun e => send_exception e (reply_drain w) ;; ret None)
  else raise ConnectionResetError.

(** One pass of the loop of [handle_one_command]. *)
Definition one_pass (w : turn) : M unit :=
  write_prompt (prompt_drain w) ;;
  let* codeobj := read_command w in
  match codeobj with
  | Some c => run_command c w
  | None => ret tt
  end.

(** [handle_one_command] never returns: it runs passes until one raises.
    The answer is the exception with the turns not yet consumed, or
    [None] when the script ends with the loop still running. *)
Fixpoint handle_one_command (script : list turn) (self : t)
  : option (exn * list turn) * t :=
  match script with
  | [] => (None, self)
  | w :: rest =>
    match one_pass w self with
    | (Return _, self') => handle_one_command rest self'
    | (Raise e, self') => (Some (e, rest), self')
    end
  end.

(** How the loop of [__call__] stands at the end of a script. *)
Inductive status :=
  | Serving
  | Closed
  | Escaped (e : exn).

Fixpoint call_loop (fuel : nat) (script : list turn) (self : t)
  : status * t :=
  match fuel with
  | O => (Serving, self)
  | S fuel =>
    match handle_one_command script self with
    | (None, self') => (Serving, self')
    | (Some (e, rest), self') =>
      if isinstance e ConnectionResetError
      then (Closed, snd (writer_close self'))
      else if isinstance e Exception
      then call_loop fuel rest (snd (print_exc e self'))
      else (Escaped e, self')
    end
  end.

(** [__call__] after [_setup_prompts]: the banner, then the loop. Every
    turn of the outer loop that comes back consumes a turn of the script,
    so its length bounds the turns. *)
Definition call (banner_drain : option exn) (script : list turn) (self : t)
  : status * t :=
  let '(r, self) :=
    (if truthy (banner self)
     then writer_write (banner self) ;; writer_drain banner_drain
     else ret tt) self in
  match r with
  | Return _ => call_loop (S (length script)) script self
  | Raise e => (Escaped e, self)
  end.
End Interpreter.
End InteractiveInterpreter.

(** ** ThreadedInteractiveInterpreter *)

Module ThreadedInteractiveInterpreter.

Record t := {
  super : InteractiveInterpreter.t;
  command_timeout : Z;
}.

(** [__init__], whose keyword [command_timeout] defaults to 5; [None]
    stands for the omitted keyword. *)
Definition init (namespace : loc) (banner : banner_t)
    (command_timeout : option Z) : t :=
  {| super := InteractiveInterpreter.init namespace banner;
     command_timeout := default 5 command_timeout |}.

(** The work goes to the executor; the wait is wrapped in [wait_for] only
    when [command_timeout] is truthy, that is, not zero. *)
Definition _real_exec (self : t) (j : job) : waited :=
  if bool_decide (command_timeout self ≠ 0)
  then wait_for j (command_timeout self)
  else await j.

(** The object seen through the base class, with the overriding method. *)
Definition as_interpreter (self : t) : InteractiveInterpreter.t :=
  InteractiveInterpreter.set_real_exec (_real_exec self) (super self).

End ThreadedInteractiveInterpreter.

(** ** InterpreterFactory *)

Module InterpreterFactory.

Record t := {
  interpreter_class : loc -> banner_t -> InteractiveInterpreter.t;
  namespace : loc;
  shared : bool;
  banner : banner_t;
}.

(** [self.namespace = namespace or {}]: a missing or empty mapping is
    replaced by a new empty dictionary. *)
Definition init
    (interpreter_class : loc -> banner_t -> InteractiveInterpreter.t)
    (namespace : option loc) (shared : bool) (banner : banner_t) (h : heap)
  : t * heap :=
  let '(ns, h) :=
    match namespace with
    | Some d => if dict_truthy d h then (d, h) else dict_new ∅ h
    | None => dict_new ∅ h
    end in
  ({| interpreter_class := interpreter_class; namespace := ns;
      shared := shared; banner := banner |}, h).

(** [__call__]: the interpreter of a new connection. *)
Definition call (self : t) (h : heap) : InteractiveInterpreter.t * heap :=
  let '(ns, h) :=
    if shared self then (namespace self, h)
    else dict_copy (namespace self) h in
  (interpreter_class self ns (banner self), h).

End InterpreterFactory.

(** ** start_manhole *)

(** The listeners asked of asyncio, in the order they are scheduled. *)
Inductive server_request :=
  | start_unix_server (client_cb : InterpreterFactory.t) (path : string)
  | start_server (client_cb : InterpreterFactory.t) (host : string) (port : Z).

(** [None] for [command_timeout] stands for the omitted keyword, whose
    default is 5. *)
Definition start_manhole (banner : banner_t) (host : string)
    (port : option Z) (path : option string) (namespace : option loc)
    (threaded : bool) (command_timeout : option Z) (shared : bool) (h : heap)
  : result (list server_request) * heap :=
  match port, path with
  | None, None => (Raise ValueError, h)
  | _, _ =>
    let interpreter_class :=
      if threaded
      then fun ns b =>
             ThreadedInteractiveInterpreter.as_interpreter
               (ThreadedInteractiveInterpreter.init ns b
                  (Some (default 5 command_timeout)))
      else InteractiveInterpreter.init in
    let '(client_cb, h) :=
      InterpreterFactory.init interpreter_class namespace shared banner h in
    let coros := [] in
    let coros :=
      match path with
      | Some p =>
        if str_truthy p then coros ++ [start_unix_server client_cb p]
        else coros
      | None => coros
      end in
    let coros :=
      match port with
      | Some n => coros ++ [start_server client_cb host n]
      | None => coros
      end in
    (Return coros, h)
  end.

(** ** A concrete host *)

(** The answers of [codeop.CommandCompiler] on a few source texts; a code
    object is represented by the statement it was compiled from (a blank
    source compiles as [pass]). Two statements in one text are refused in
    the [single] mode the compiler works in. *)
Definition sample_sources : list (string * compiled string) :=
  [ ("1+1", Code "1+1");
    ("x = 5", Code "x = 5");
    ("x", Code "x");
    (EmptyString, Code "pass");
    ("raise SystemExit", Code "raise SystemExit");
    ("1/0", Code "1/0");
    ("def f():", Incomplete);
    ("def f():" +:+ newline +:+ "  return 1", Incomplete);
    ("def f():" +:+ newline +:+ "  return 1" +:+ newline,
     Code "def f(): return 1");
    ("def f(:", CompileError SyntaxError);
    ("x = 5" +:+ newline +:+ "x", CompileError SyntaxError) ]%string.

(** A text outside the table is taken for a syntax error. *)
Fixpoint lookup_source (text : string)
    (table : list (string * compiled string)) : compiled string :=
  match table with
  | [] => CompileError SyntaxError
  | (src, r) :: rest =>
    if String.eqb text src then r else lookup_source text rest
  end.

Definition sample_host : Host :=
  {| code := string;
     command_compiler := fun text => lookup_source text sample_sources;
     repr := fun v => pretty (Npos v);
     format_exc := fun e =>
       ("Traceback (most recent call last):" +:+ newline)%string;
     ps1 := ">>> "%string;
     ps2 := "... "%string |}.

(** The bytes of a literal. *)
Definition bytes_of (s : string) : bytes := encode_utf8 s.

(** The executions behind the sample code objects, in a namespace without
    [x]: [1+1] is the object numbered 2, [raise SystemExit] raises
    [SystemExit], [1/0] raises [ZeroDivisionError], [x] raises [NameError];
    the statements return [None]. Nothing is printed. *)
Definition sample_run (c : string) (ns : loc) : job :=
  {| duration := 1;
     outcome :=
       if String.eqb c "1+1" then Return (Some 2%positive)
       else if String.eqb c "raise SystemExit" then Raise SystemExit
       else if String.eqb c "1/0" then Raise ZeroDivisionError
       else if String.eqb c "x" then Raise NameError
       else Return None;
     output := EmptyString |}.

(** A turn in which the client sends [line] and nothing goes wrong on the
    transport. *)
Definition sends (line : bytes) : @InteractiveInterpreter.turn sample_host :=
  @InteractiveInterpreter.Build_turn sample_host
    None (Return line) sample_run None.

Definition sample_session : InteractiveInterpreter.t :=
  InteractiveInterpreter.init 1%positive BannerNone.

(** A heap with a template namespace binding [answer] to an opaque object,
    and factories over it in either mode. *)
Definition sample_items : gmap string loc :=
  {[ "answer"%string := 2%positive ]}.

Definition sample_heap : heap :=
  <[1%positive := PyDict sample_items]> {[ 2%positive := PyOther 42 ]}.

Definition sample_factory (shared : bool) : InterpreterFactory.t :=
  {| InterpreterFactory.interpreter_class := InteractiveInterpreter.init;
     InterpreterFactory.namespace := 1%positive;
     InterpreterFactory.shared := shared;
     InterpreterFactory.banner := BannerNone |}.

(** ** Vocabulary of the statements *)

(** The pending buffer once a line is appended: a separator goes first
    exactly when the buffer held something. *)
Definition appended (before line : bytes) : bytes :=
  if truthy before then before ++ NL :: line else line.

(** The parser's verdict on the whole contents of a buffer. *)
Definition pending `{Host} (whole : bytes) : Prop :=
  ∃ text, decode_utf8 whole = Some text ∧ command_compiler text = Incomplete.

(** Split-invariance at given lines: one call on the joined text and one
    call per line end with the same unit and an empty buffer. *)
Definition split_invariant `{Host} (lines : list bytes) : Prop :=
  ∃ u rs,
    StatefulCommandCompiler.call (join_lines lines) StatefulCommandCompiler.init
      = (Return (Some u), StatefulCommandCompiler.init)
    ∧ StatefulCommandCompiler.feed_lines lines StatefulCommandCompiler.init
      = (rs, StatefulCommandCompiler.init)
    ∧ last rs = Some (Return (Some u)).

(** The constructor keeps the namespace it is given, as both interpreter
    classes do. *)
Definition stores_namespace
    (cls : loc -> banner_t -> InteractiveInterpreter.t) : Prop :=
  ∀ ns bn, InteractiveInterpreter.namespace (cls ns bn) = ns.

(** Executing [x = v] in a session, and looking [x] up in it. *)
Definition bind_name (i : InteractiveInterpreter.t) (x : string) (v : loc)
    (h : heap) : heap :=
  dict_setitem (InteractiveInterpreter.namespace i) x v h.

Definition lookup_name (i : InteractiveInterpreter.t) (x : string) (h : heap)
  : option loc :=
  dict_get (InteractiveInterpreter.namespace i) x h.

(** The loop ends only on a zero-byte read and nothing escapes it. *)
Definition only_reset_ends `{Host}
    (script : list InteractiveInterpreter.turn)
    (self : InteractiveInterpreter.t) : Prop :=
  match fst (InteractiveInterpreter.call None script self) with
  | InteractiveInterpreter.Serving => True
  | InteractiveInterpreter.Closed =>
    ∃ w, w ∈ script ∧ InteractiveInterpreter.readline w = Return []
  | InteractiveInterpreter.Escaped _ => False
  end.

(** ** The prompts of the process *)

(** [sys.ps1] and [sys.ps2], either of which may be unset when a session
    starts. *)
Record sys_prompts := {
  sys_ps1 : option string;
  sys_ps2 : option string;
}.

(** [InteractiveInterpreter._setup_prompts]: a prompt whose lookup raises
    [AttributeError] is given its default. *)
Definition _setup_prompts (sys : sys_prompts) : sys_prompts :=
  {| sys_ps1 :=
       match sys_ps1 sys with
       | Some p => Some p
       | None => Some ">>> "%string
       end;
     sys_ps2 :=
       match sys_ps2 sys with
       | Some p => Some p
       | None => Some "... "%string
       end |}.

(** ** Successive connections *)

(** The interpreters of [n] connections made one after the other. *)
Fixpoint connect (n : nat) (f : InterpreterFactory.t) (h : heap)
  : list InteractiveInterpreter.t * heap :=
  match n with
  | O => ([], h)
  | S n =>
    let '(i, h) := InterpreterFactory.call f h in
    let '(rest, h) := connect n f h in
    (i :: rest, h)
  end.

(** ** A threaded session and a slow command *)


(** Every command takes ten units of time and returns [None]. *)
Definition slow_run (c : string) (ns : loc) : job :=
  {| duration := 10; outcome := Return None; output := EmptyString |}.


(** The callback a listener was asked for. *)
Definition client_cb_of (r : server_request) : InterpreterFactory.t :=
  match r with
  | start_unix_server client_cb _ => client_cb
  | start_server client_cb _ _ => client_cb
  end.

(** ** A host that refuses null characters *)

(** The source text [x] followed by a null character, which [compile]
    refuses with [ValueError] in the releases the module was written for. *)
Definition null_source : string :=
  String.append "x" (String (Ascii.ascii_of_byte Byte.x00) EmptyString).

Definition strict_host : Host :=
  {| code := string;
     command_compiler := fun text =>
       if String.eqb text null_source then CompileError ValueError
       else lookup_source text sample_sources;
     repr := fun v => pretty (Npos v);
     format_exc := fun e =>
       ("Traceback (most recent call last):" +:+ newline)%string;
     ps1 := ">>> "%string;
     ps2 := "... "%string |}.

Definition strict_sends (line : bytes)
  : @InteractiveInterpreter.turn strict_host :=
  @InteractiveInterpreter.Build_turn strict_host
    None (Return line) sample_run None.

(** ** Further vocabulary *)

(** The turn goes well on the transport and the reader yields [line]. *)
Definition delivers `{Host} (w : InteractiveInterpreter.turn) (line : bytes)
  : Prop :=
  InteractiveInterpreter.prompt_drain w = None
  ∧ InteractiveInterpreter.readline w = Return line
  ∧ line ≠ [].

(** What a method may do to the object it runs on: write more to the writer
    and change the compiler's buffer, nothing else. *)
Definition only_writes (self self' : InteractiveInterpreter.t) : Prop :=
  InteractiveInterpreter.namespace self' = InteractiveInterpreter.namespace self
  ∧ InteractiveInterpreter.banner self' = InteractiveInterpreter.banner self
  ∧ InteractiveInterpreter.real_exec self'
    = InteractiveInterpreter.real_exec self
  ∧ InteractiveInterpreter.closed self' = InteractiveInterpreter.closed self
  ∧ InteractiveInterpreter.printed self' = InteractiveInterpreter.printed self
  ∧ ∃ sent,
      InteractiveInterpreter.written self'
      = InteractiveInterpreter.written self ++ sent.

Definition writes_only {A} (m : InteractiveInterpreter.M A) : Prop :=
  ∀ self, only_writes self (m self).2.

(** An exception the generic handler of the loop logs. *)
Definition loggable (e : exn) : Prop :=
  isinstance e Exception = true ∧ isinstance e ConnectionResetError = false.

(** What the loop of a session may do to it: write more, log more, change
    the compiler's buffer and close the writer. *)
Definition session_grows (self self' : InteractiveInterpreter.t) : Prop :=
  InteractiveInterpreter.namespace self' = InteractiveInterpreter.namespace self
  ∧ InteractiveInterpreter.banner self' = InteractiveInterpreter.banner self
  ∧ InteractiveInterpreter.real_exec self'
    = InteractiveInterpreter.real_exec self
  ∧ (∃ sent,
       InteractiveInterpreter.written self'
       = InteractiveInterpreter.written self ++ sent)
  ∧ (∃ logged,
       InteractiveInterpreter.printed self'
       = InteractiveInterpreter.printed self ++ logged
       ∧ Forall loggable logged).

(** * Properties *)

(** ** The accumulator *)

Section Accumulator.
Context `{Host}.
Import StatefulCommandCompiler.

Lemma truthy_nonempty {A} (l : list A) : l ≠ [] → truthy l = true.
Proof. by destruct l. Qed.

Lemma buf_after_append (source : bytes) (self : t) :
  buf (write source
         (if is_partial_command self then write [NL] self else self))
  = appended (buf self) source.
Proof.
  unfold appended, is_partial_command, getvalue.
  destruct self as [[|b0 bs]]; simpl; [done | ].
  by rewrite <- app_assoc.
Qed.

Lemma call_settles (source : bytes) (self : t) :
  call source self =
  let whole := appended (buf self) source in
  match decode_utf8 whole with
  | None => (Raise UnicodeDecodeError, {| buf := whole |})
  | Some text =>
    match command_compiler text with
    | CompileError e => (Raise e, {| buf := whole |})
    | Incomplete => (Return None, {| buf := whole |})
    | Code c => (Return (Some c), init)
    end
  end.
Proof.
  unfold call. cbv zeta.
  pose proof (buf_after_append source self) as Hbuf.
  destruct (write source _) as [whole]. simpl in Hbuf. subst whole.
  unfold getvalue. simpl.
  destruct (decode_utf8 _); [ | done].
  by destruct (command_compiler _).
Qed.

Lemma call_ext (src1 src2 : bytes) (s1 s2 : t) :
  appended (buf s1) src1 = appended (buf s2) src2 →
  call src1 s1 = call src2 s2.
Proof. intros Heq. rewrite !call_settles. cbv zeta. by rewrite Heq. Qed.

Lemma call_pending (source : bytes) (self : t) :
  pending (appended (buf self) source) →
  call source self = (Return None, {| buf := appended (buf self) source |}).
Proof.
  intros (text & Hd & Hc). rewrite call_settles. cbv zeta.
  by rewrite Hd, Hc.
Qed.

Lemma appended_nonempty (cur line : bytes) :
  cur ≠ [] → appended cur line = cur ++ NL :: line.
Proof. intros Hne. unfold appended. by rewrite truthy_nonempty. Qed.

Lemma join_lines_cons (l : bytes) (ls : list bytes) :
  ls ≠ [] → join_lines (l :: ls) = l ++ NL :: join_lines ls.
Proof. by destruct ls. Qed.

Lemma take_nonempty {A} (k : nat) (ls : list A) :
  (0 < k ≤ length ls)%nat → take k ls ≠ [].
Proof. destruct k, ls; simpl; intros [? ?]; (lia || done). Qed.

(** From a buffer that already holds [cur]: while every extension by a
    further line is reported incomplete, the calls line by line end like
    one call on the joined remainder. *)
Lemma feed_lines_continuing (lines : list bytes) :
  ∀ (cur final : bytes),
    cur ≠ [] →
    (∀ k, (0 < k ≤ length lines)%nat →
          pending (cur ++ NL :: join_lines (take k lines))) →
    feed_lines (lines ++ [final]) {| buf := cur |} =
    (replicate (length lines) (Return None)
       ++ [(call (join_lines (lines ++ [final])) {| buf := cur |}).1],
     (call (join_lines (lines ++ [final])) {| buf := cur |}).2).
Proof.
  induction lines as [|l ls IH]; intros cur final Hne Hpend.
  - simpl. by destruct (call final _).
  - change ((l :: ls) ++ [final]) with (l :: (ls ++ [final])).
    cbn [feed_lines].
    rewrite call_pending; last first.
    { cbn [buf]. rewrite appended_nonempty by done.
      apply (Hpend 1%nat). simpl. lia. }
    cbn [buf]. rewrite appended_nonempty by done.
    rewrite IH; first last.
    + intros k Hk. rewrite <- app_assoc. cbn [app].
      rewrite <- (join_lines_cons l (take k ls)) by by apply take_nonempty.
      apply (Hpend (S k)). simpl. lia.
    + by destruct cur.
    + rewrite (call_ext (join_lines (ls ++ [final]))
                 (join_lines (l :: ls ++ [final]))
                 {| buf := cur ++ NL :: l |} {| buf := cur |}); [done | ].
      cbn [buf]. rewrite !appended_nonempty; [ | done | by destruct cur].
      rewrite join_lines_cons by by destruct ls.
      by rewrite <- app_assoc.
Qed.

(** C1: a fed line is appended to the pending buffer, after a separator
    exactly when the buffer was not empty; the parser is asked about the
    whole buffer decoded as text; a complete unit is returned with the
    buffer cleared, and an incomplete one leaves the appended buffer in
    place and returns [None]. *)
Theorem feed_appends_then_parses (source : bytes) (self : t) (text : string) :
  decode_utf8 (appended (buf self) source) = Some text →
  (∀ u, command_compiler text = Code u →
        call source self = (Return (Some u), {| buf := [] |}))
  ∧ (command_compiler text = Incomplete →
     call source self
     = (Return None, {| buf := appended (buf self) source |})).
Proof.
  intros Hd. rewrite call_settles. cbv zeta. rewrite Hd.
  split; [intros u Hc | intros Hc]; by rewrite Hc.
Qed.

(** C3, amended: when the first line is not empty and the parser reports
    every proper prefix of the lines incomplete, feeding the lines one per
    call answers [None] until the last call, which answers what a single
    call on the joined text answers and leaves the same buffer; whenever
    that answer is a complete unit the buffer is empty. *)
Theorem split_feed_agrees (lines : list bytes) (final : bytes) :
  head lines ≠ Some [] →
  (∀ k, (0 < k ≤ length lines)%nat → pending (join_lines (take k lines))) →
  feed_lines (lines ++ [final]) init =
  (replicate (length lines) (Return None)
     ++ [(call (join_lines (lines ++ [final])) init).1],
   (call (join_lines (lines ++ [final])) init).2)
  ∧ (∀ u, (call (join_lines (lines ++ [final])) init).1 = Return (Some u) →
          (call (join_lines (lines ++ [final])) init).2 = init).
Proof.
  intros Hhd Hpend. split.
  - destruct lines as [|l ls].
    + simpl. by destruct (call final _).
    + assert (l ≠ []) as Hl by (intros ->; by apply Hhd).
      change ((l :: ls) ++ [final]) with (l :: (ls ++ [final])).
      cbn [feed_lines].
      rewrite call_pending; last first.
      { apply (Hpend 1%nat). simpl. lia. }
      change (appended (buf init) l) with l.
      rewrite feed_lines_continuing; [ | done | ]; last first.
      { intros k Hk.
        rewrite <- (join_lines_cons l (take k ls)) by by apply take_nonempty.
        apply (Hpend (S k)). simpl. lia. }
      rewrite (call_ext (join_lines (ls ++ [final]))
                 (join_lines (l :: ls ++ [final])) {| buf := l |} init);
        [done | ].
      cbn [buf]. rewrite appended_nonempty by done.
      by rewrite join_lines_cons by by destruct ls.
  - intros u. rewrite call_settles. cbv zeta.
    destruct (decode_utf8 _); [ | done].
    by destruct (command_compiler _).
Qed.
End Accumulator.

Lemma feed_appends_then_parses_witness :
  @StatefulCommandCompiler.call sample_host (bytes_of "def f():")
    StatefulCommandCompiler.init
  = (Return None, {| StatefulCommandCompiler.buf := bytes_of "def f():" |})
  ∧ @StatefulCommandCompiler.call sample_host [] 
      {| StatefulCommandCompiler.buf :=
           bytes_of "def f():" ++ NL :: bytes_of "  return 1" |}
    = (Return (Some "def f(): return 1"%string),
       {| StatefulCommandCompiler.buf := [] |}).
Proof.
  split.
  - apply (feed_appends_then_parses (H := sample_host) (bytes_of "def f():")
             StatefulCommandCompiler.init "def f():"); reflexivity.
  - apply (feed_appends_then_parses (H := sample_host) []
             {| StatefulCommandCompiler.buf :=
                  bytes_of "def f():" ++ NL :: bytes_of "  return 1" |}
             ("def f():" +:+ newline +:+ "  return 1" +:+ newline));
      reflexivity.
Defined.

(** The two lines [x = 5] and [x]: one call on the joined text raises, and
    the buffer keeps the text; one call per line gives a unit each. *)
Example two_statements_in_one_call :
  @StatefulCommandCompiler.call sample_host
    (join_lines [bytes_of "x = 5"; bytes_of "x"]) StatefulCommandCompiler.init
  = (Raise SyntaxError,
     {| StatefulCommandCompiler.buf :=
          bytes_of "x = 5" ++ NL :: bytes_of "x" |}).
Proof. reflexivity. Qed.

Example two_statements_line_by_line :
  @StatefulCommandCompiler.feed_lines sample_host
    [bytes_of "x = 5"; bytes_of "x"] StatefulCommandCompiler.init
  = ([Return (Some "x = 5"%string); Return (Some "x"%string)],
     StatefulCommandCompiler.init).
Proof. reflexivity. Qed.

(** C3 as stated fails: fed in one call, the two lines [x = 5] and [x] are
    a syntax error and no unit; fed one per call, each is a unit. *)
Lemma split_invariance_fails :
  ¬ @split_invariant sample_host [bytes_of "x = 5"; bytes_of "x"].
Proof.
  intros (u & rs & Hsingle & _). vm_compute in Hsingle. discriminate.
Qed.

Lemma split_feed_agrees_witness :
  @StatefulCommandCompiler.feed_lines sample_host
    [bytes_of "def f():"; bytes_of "  return 1"; []] StatefulCommandCompiler.init
  = ([Return None; Return None; Return (Some "def f(): return 1"%string)],
     StatefulCommandCompiler.init).
Proof.
  refine (eq_trans
    (proj1 (split_feed_agrees (H := sample_host)
              [bytes_of "def f():"; bytes_of "  return 1"] [] _ _)) _).
  - discriminate.
  - intros [|[|[|k]]] Hk; simpl in Hk; try lia.
    + by exists "def f():"%string.
    + by eexists (String.string_of_list_byte
                  (join_lines [bytes_of "def f():"; bytes_of "  return 1"])).
  - reflexivity.
Defined.

(** ** The session *)

Section Session.
Context `{Host}.
Import InteractiveInterpreter.

Lemma attempt_compile_settles (line : bytes) (self : t) :
  attempt_compile line self =
  ((StatefulCommandCompiler.call line (compiler self)).1,
   set_compiler (StatefulCommandCompiler.call line (compiler self)).2 self).
Proof.
  unfold attempt_compile. by destruct (StatefulCommandCompiler.call _ _).
Qed.

Lemma read_command_line (w : turn) (self : t) (line : bytes) :
  readline w = Return line → line ≠ [] →
  read_command w self =
  try_except (attempt_compile (rstrip_nl line)) SyntaxError
    (fun e => send_exception e (reply_drain w) ;; ret None) self.
Proof.
  intros Hline Hne. unfold read_command, bind at 1. rewrite Hline.
  by rewrite truthy_nonempty.
Qed.

Lemma send_exception_effect (e : exn) (drain : option exn) (self : t) :
  send_exception e drain self =
  (match drain with None => Return tt | Some e' => Raise e' end,
   set_written (written self ++ [encode_utf8 (format_exc e)])
     (set_compiler (StatefulCommandCompiler.reset (compiler self)) self)).
Proof. unfold send_exception, bind, writer_write. by destruct drain. Qed.

Lemma send_output_effect (value : option loc) (stdout : string)
    (drain : option exn) (self : t) :
  send_output value stdout drain self =
  (match drain with None => Return tt | Some e' => Raise e' end,
   set_written
     (written self
        ++ match value with
           | Some v => [encode_utf8 (repr v +:+ newline)]
           | None => []
           end
        ++ (if str_truthy stdout then [encode_utf8 stdout] else []))
     self).
Proof.
  unfold send_output, bind, writer_write, ret.
  destruct self, value, (str_truthy stdout), drain; simpl;
    rewrite ?app_nil_r, <- ?app_assoc; done.
Qed.

Lemma call_loop_step (fuel : nat) (w : turn) (rest : list turn) (self : t) :
  call_loop (S fuel) (w :: rest) self =
  match one_pass w self with
  | (Return _, self') => call_loop (S fuel) rest self'
  | (Raise e, self') =>
    if isinstance e ConnectionResetError
    then (Closed, set_closed true self')
    else if isinstance e Exception
    then call_loop fuel rest (set_printed (printed self' ++ [e]) self')
    else (Escaped e, self')
  end.
Proof.
  cbn [call_loop handle_one_command].
  by destruct (one_pass w self) as [[|] ?].
Qed.

Lemma call_loop_exits (fuel : nat) :
  ∀ (script : list turn) (self : t),
    match call_loop fuel script self with
    | (Serving, _) => True
    | (Closed, self') => closed self' = true
    | (Escaped e, _) => isinstance e Exception = false
    end.
Proof.
  induction fuel as [|fuel IH]; intros script self; [done | ].
  cbn [call_loop].
  destruct (handle_one_command script self) as [[[e rest]|] self']; [ | done].
  destruct (isinstance e ConnectionResetError); [done | ].
  destruct (isinstance e Exception) eqn:He; [apply IH | done].
Qed.

Lemma write_prompt_effect (drain : option exn) (self : t) :
  write_prompt drain self =
  (match drain with None => Return tt | Some e' => Raise e' end,
   set_written
     (written self
        ++ [encode_utf8
              (if StatefulCommandCompiler.is_partial_command (compiler self)
               then ps2 else ps1)])
     self).
Proof.
  unfold write_prompt, bind, writer_write.
  by destruct (StatefulCommandCompiler.is_partial_command _), drain.
Qed.

Lemma reset_error_is_exception (e : exn) :
  isinstance e ConnectionResetError = true → isinstance e Exception = true.
Proof. by destruct e. Qed.

Lemma read_command_syntax_error (w : turn) (self : t) (line : bytes)
    (text : string) (e : exn) :
  readline w = Return line → line ≠ [] →
  decode_utf8
    (appended (StatefulCommandCompiler.buf (compiler self)) (rstrip_nl line))
    = Some text →
  command_compiler text = CompileError e →
  isinstance e SyntaxError = true →
  read_command w self
  = (match reply_drain w with None => Return None | Some e' => Raise e' end,
     set_written (written self ++ [encode_utf8 (format_exc e)])
       (set_compiler StatefulCommandCompiler.init self)).
Proof.
  intros Hline Hne Hd Hc He.
  rewrite (read_command_line w self line) by done.
  unfold try_except. rewrite attempt_compile_settles, call_settles.
  cbv zeta. rewrite Hd, Hc. cbn [fst snd]. rewrite He.
  unfold bind at 1. rewrite send_exception_effect.
  by destruct (reply_drain w).
Qed.

(** C2: when the parser raises a syntax error on a fed line, the pending
    buffer is emptied before anything of the failure is written, so it is
    empty however the write ends: [is_partial_command] is false, the bytes
    buffered so far are gone, the next prompt is the primary one and the
    next line is parsed on its own. *)
Theorem syntax_error_clears_buffer (w : turn) (self : t) (line : bytes)
    (text : string) (e : exn) :
  readline w = Return line → line ≠ [] →
  decode_utf8
    (appended (StatefulCommandCompiler.buf (compiler self)) (rstrip_nl line))
    = Some text →
  command_compiler text = CompileError e →
  isinstance e SyntaxError = true →
  (read_command w self).1
    = match reply_drain w with None => Return None | Some e' => Raise e' end
  ∧ StatefulCommandCompiler.buf (compiler (read_command w self).2) = []
  ∧ StatefulCommandCompiler.is_partial_command
      (compiler (read_command w self).2) = false
  ∧ written (read_command w self).2
    = written self ++ [encode_utf8 (format_exc e)]
  ∧ (∀ d, written (write_prompt d (read_command w self).2).2
          = written (read_command w self).2 ++ [encode_utf8 ps1])
  ∧ (∀ source,
       StatefulCommandCompiler.call source (compiler (read_command w self).2)
       = StatefulCommandCompiler.call source StatefulCommandCompiler.init).
Proof.
  intros Hline Hne Hd Hc He.
  rewrite (read_command_syntax_error w self line text e) by done.
  cbn [fst snd]. repeat split.
  intros d. by rewrite write_prompt_effect.
Qed.


Lemma run_command_raises (codeobj : code) (w : turn) (self : t) (e : exn) :
  answer (real_exec self (run w codeobj (namespace self))) = Raise e →
  run_command codeobj w self =
  if isinstance e Exception then send_exception e (reply_drain w) self
  else (Raise e, self).
Proof. intros Hans. unfold run_command, attempt_exec. by rewrite Hans. Qed.

(** C7, amended: the loop of a session ends when a [ConnectionResetError]
    reaches it, as a zero-byte read raises, and then the writer is closed;
    any other exception that is an [Exception] is caught: a syntax error and
    a runtime error or timeout of an execution are answered with their
    traceback, whatever else a pass raises is logged, and the loop takes the
    next turn; an exception that is no [Exception] escapes the loop, and
    nothing else does. *)
Theorem session_loop_ends_or_resumes (fuel : nat) (w : turn)
    (rest : list turn) (self : t) :
  (prompt_drain w = None → readline w = Return [] →
     (call_loop (S fuel) (w :: rest) self).1 = Closed
     ∧ closed (call_loop (S fuel) (w :: rest) self).2 = true)
  ∧ (∀ e self',
       one_pass w self = (Raise e, self') →
       isinstance e ConnectionResetError = true →
       call_loop (S fuel) (w :: rest) self = (Closed, set_closed true self'))
  ∧ (∀ e self',
       one_pass w self = (Raise e, self') →
       isinstance e ConnectionResetError = false →
       isinstance e Exception = true →
       call_loop (S fuel) (w :: rest) self
       = call_loop fuel rest (set_printed (printed self' ++ [e]) self'))
  ∧ (∀ codeobj e,
       answer (real_exec self (run w codeobj (namespace self))) = Raise e →
       isinstance e Exception = true →
       run_command codeobj w self
       = (match reply_drain w with
          | None => Return tt
          | Some e' => Raise e'
          end,
          set_written (written self ++ [encode_utf8 (format_exc e)])
            (set_compiler (StatefulCommandCompiler.reset (compiler self))
               self)))
  ∧ (∀ line text e,
       readline w = Return line → line ≠ [] →
       decode_utf8
         (appended (StatefulCommandCompiler.buf (compiler self))
            (rstrip_nl line)) = Some text →
       command_compiler text = CompileError e →
       isinstance e SyntaxError = true →
       read_command w self
       = (match reply_drain w with
          | None => Return None
          | Some e' => Raise e'
          end,
          set_written (written self ++ [encode_utf8 (format_exc e)])
            (set_compiler StatefulCommandCompiler.init self)))
  ∧ (∀ e self',
       one_pass w self = (Raise e, self') →
       isinstance e Exception = false →
       call_loop (S fuel) (w :: rest) self = (Escaped e, self'))
  ∧ match call_loop fuel (w :: rest) self with
    | (Serving, _) => True
    | (Closed, self') => closed self' = true
    | (Escaped e, _) => isinstance e Exception = false
    end.
Proof.
  split; [ | repeat split].
  - intros Hprompt Hline. rewrite call_loop_step. unfold one_pass, bind.
    rewrite write_prompt_effect, Hprompt. unfold read_command, bind.
    by rewrite Hline.
  - intros e self' Hpass Hreset. rewrite call_loop_step, Hpass.
    by rewrite Hreset.
  - intros e self' Hpass Hreset Hexc. rewrite call_loop_step, Hpass.
    by rewrite Hreset, Hexc.
  - intros codeobj e Hans Hexc.
    rewrite (run_command_raises codeobj w self e Hans), Hexc.
    apply send_exception_effect.
  - intros line text e. apply read_command_syntax_error.
  - intros e self' Hpass Hexc. rewrite call_loop_step, Hpass.
    destruct (isinstance e ConnectionResetError) eqn:Hreset.
    + apply reset_error_is_exception in Hreset. congruence.
    + by rewrite Hexc.
  - apply call_loop_exits.
Qed.

(** C9: when the buffer with the fed line appended is not valid UTF-8, the
    compiler raises [UnicodeDecodeError], which is no [SyntaxError]: the
    session sends the client nothing for it and does not reset the buffer,
    which keeps the undecodable bytes; the loop's generic handler logs the
    error and goes on with the next turn. *)
Theorem undecodable_line_is_logged (fuel : nat) (w : turn)
    (rest : list turn) (self : t) (line : bytes) :
  prompt_drain w = None → readline w = Return line → line ≠ [] →
  decode_utf8
    (appended (StatefulCommandCompiler.buf (compiler self)) (rstrip_nl line))
    = None →
  StatefulCommandCompiler.call (rstrip_nl line) (compiler self)
    = (Raise UnicodeDecodeError,
       {| StatefulCommandCompiler.buf :=
            appended (StatefulCommandCompiler.buf (compiler self))
              (rstrip_nl line) |})
  ∧ isinstance UnicodeDecodeError SyntaxError = false
  ∧ read_command w self
    = (Raise UnicodeDecodeError,
       set_compiler
         {| StatefulCommandCompiler.buf :=
              appended (StatefulCommandCompiler.buf (compiler self))
                (rstrip_nl line) |} self)
  ∧ call_loop (S fuel) (w :: rest) self
    = call_loop fuel rest
        {| namespace := namespace self; banner := banner self;
           compiler :=
             {| StatefulCommandCompiler.buf :=
                  appended (StatefulCommandCompiler.buf (compiler self))
                    (rstrip_nl line) |};
           real_exec := real_exec self;
           written :=
             written self
               ++ [encode_utf8
                     (if StatefulCommandCompiler.is_partial_command
                           (compiler self)
                      then ps2 else ps1)];
           closed := closed self;
           printed := printed self ++ [UnicodeDecodeError] |}.
Proof.
  intros Hprompt Hline Hne Hd.
  assert (StatefulCommandCompiler.call (rstrip_nl line) (compiler self)
          = (Raise UnicodeDecodeError,
             {| StatefulCommandCompiler.buf :=
                  appended (StatefulCommandCompiler.buf (compiler self))
                    (rstrip_nl line) |})) as Hcall.
  { rewrite call_settles. cbv zeta. by rewrite Hd. }
  assert (∀ s : t, compiler s = compiler self →
            read_command w s
            = (Raise UnicodeDecodeError,
               set_compiler
                 {| StatefulCommandCompiler.buf :=
                      appended (StatefulCommandCompiler.buf (compiler self))
                        (rstrip_nl line) |} s)) as Hread.
  { intros s Hs. rewrite (read_command_line w s line) by done.
    unfold try_except. rewrite attempt_compile_settles, Hs, Hcall. done. }
  repeat split; [done | by apply Hread | ].
  rewrite call_loop_step. unfold one_pass, bind at 1.
  rewrite write_prompt_effect, Hprompt. unfold bind.
  rewrite Hread by done. done.
Qed.
End Session.

Lemma syntax_error_clears_buffer_witness :
  StatefulCommandCompiler.buf
    (InteractiveInterpreter.compiler
       (InteractiveInterpreter.read_command (sends (bytes_of "def f(:" ++ [NL]))
          sample_session).2) = []
  ∧ InteractiveInterpreter.written
      (InteractiveInterpreter.write_prompt (H := sample_host) None
         (InteractiveInterpreter.read_command (sends (bytes_of "def f(:" ++ [NL]))
            sample_session).2).2
    = [bytes_of ("Traceback (most recent call last):" +:+ newline); bytes_of ">>> "].
Proof.
  destruct (syntax_error_clears_buffer (H := sample_host)
              (sends (bytes_of "def f(:" ++ [NL])) sample_session
              (bytes_of "def f(:" ++ [NL]) "def f(:" SyntaxError)
    as (_ & Hbuf & _ & Hwritten & Hprompt & _);
    [reflexivity | discriminate | reflexivity | reflexivity | reflexivity | ].
  split; [exact Hbuf | ].
  rewrite Hprompt, Hwritten. reflexivity.
Defined.


(** C7 as stated fails: a client that sends [raise SystemExit] ends its
    session with no zero-byte read, the exception escaping the loop. *)
Lemma system_exit_escapes :
  ¬ @only_reset_ends sample_host [sends (bytes_of "raise SystemExit" ++ [NL])]
      sample_session.
Proof. vm_compute. tauto. Qed.

Example system_exit_session :
  @InteractiveInterpreter.call sample_host None
    [sends (bytes_of "raise SystemExit" ++ [NL])] sample_session
  = (InteractiveInterpreter.Escaped SystemExit,
     InteractiveInterpreter.set_written [bytes_of ">>> "] sample_session).
Proof. reflexivity. Qed.

Lemma session_loop_ends_or_resumes_witness :
  @InteractiveInterpreter.call_loop sample_host 3
    [sends (bytes_of "1/0" ++ [NL]); sends [Byte.xff; NL]; sends []] sample_session
  = (InteractiveInterpreter.Closed,
     {| InteractiveInterpreter.namespace := 1%positive;
        InteractiveInterpreter.banner := [];
        InteractiveInterpreter.compiler :=
          {| StatefulCommandCompiler.buf := [Byte.xff] |};
        InteractiveInterpreter.real_exec := InteractiveInterpreter._real_exec;
        InteractiveInterpreter.written :=
          [bytes_of ">>> "; bytes_of ("Traceback (most recent call last):" +:+ newline);
           bytes_of ">>> "; bytes_of "... "];
        InteractiveInterpreter.closed := true;
        InteractiveInterpreter.printed := [UnicodeDecodeError] |}).
Proof.
  rewrite (call_loop_step (H := sample_host)).
  change (InteractiveInterpreter.one_pass (sends (bytes_of "1/0" ++ [NL])) sample_session)
    with (Return tt,
          InteractiveInterpreter.set_written
            [bytes_of ">>> "; bytes_of ("Traceback (most recent call last):" +:+ newline)]
            sample_session).
  cbv iota beta.
  destruct (session_loop_ends_or_resumes (H := sample_host) 2
              (sends [Byte.xff; NL]) [sends []]
              (InteractiveInterpreter.set_written
                 [bytes_of ">>> "; bytes_of ("Traceback (most recent call last):" +:+ newline)]
                 sample_session))
    as (_ & _ & Hresume & _).
  rewrite (Hresume UnicodeDecodeError _ eq_refl eq_refl eq_refl).
  destruct (session_loop_ends_or_resumes (H := sample_host) 1
              (sends []) []
              (InteractiveInterpreter.set_printed [UnicodeDecodeError]
                 (InteractiveInterpreter.set_compiler
                    {| StatefulCommandCompiler.buf := [Byte.xff] |}
                    (InteractiveInterpreter.set_written
                       [bytes_of ">>> ";
                        bytes_of ("Traceback (most recent call last):" +:+ newline);
                        bytes_of ">>> "]
                       sample_session))))
    as (_ & Hclose & _).
  exact (Hclose ConnectionResetError _ eq_refl eq_refl).
Defined.

Lemma undecodable_line_is_logged_witness :
  InteractiveInterpreter.read_command (H := sample_host)
    (sends [Byte.xff; NL]) sample_session
  = (Raise UnicodeDecodeError,
     InteractiveInterpreter.set_compiler
       {| StatefulCommandCompiler.buf := [Byte.xff] |} sample_session).
Proof.
  destruct (undecodable_line_is_logged (H := sample_host) 1
              (sends [Byte.xff; NL]) [] sample_session [Byte.xff; NL])
    as (_ & _ & Hread & _);
    [reflexivity | reflexivity | discriminate | reflexivity | exact Hread].
Defined.

(** ** The execution strategies *)





(** ** The namespaces *)

Section Namespaces.
Implicit Types (h : heap) (f : InterpreterFactory.t) (d : loc).
Import InterpreterFactory.

Lemma fresh_not_live h : h !! fresh (dom h) = None.
Proof. apply not_elem_of_dom, is_fresh. Qed.

Lemma live_not_fresh h d : is_Some (h !! d) → d ≠ fresh (dom h).
Proof. intros [o Ho] ->. by rewrite fresh_not_live in Ho. Qed.

Lemma call_shared f h :
  shared f = true →
  call f h = (interpreter_class f (namespace f) (banner f), h).
Proof. intros Hs. unfold call. by rewrite Hs. Qed.

Lemma call_isolated f h :
  shared f = false →
  call f h
  = (interpreter_class f (fresh (dom h)) (banner f),
     <[fresh (dom h) := PyDict (dict_items h (namespace f))]> h).
Proof. intros Hs. unfold call. by rewrite Hs. Qed.

Lemma dict_items_insert h d items :
  dict_items (<[d := PyDict items]> h) d = items.
Proof. unfold dict_items. by rewrite lookup_insert_eq. Qed.

Lemma dict_items_insert_ne h d d' o :
  d ≠ d' → dict_items (<[d := o]> h) d' = dict_items h d'.
Proof. intros Hne. unfold dict_items. by rewrite lookup_insert_ne. Qed.

Lemma dict_setitem_other h d d' k v :
  d ≠ d' → dict_setitem d k v h !! d' = h !! d'.
Proof.
  intros Hne. unfold dict_setitem.
  destruct (h !! d) as [[items|tag]|]; [ | done | done].
  by rewrite lookup_insert_ne.
Qed.

Lemma dict_items_setitem_other h d d' k v :
  d ≠ d' → dict_items (dict_setitem d k v h) d' = dict_items h d'.
Proof. intros Hne. unfold dict_items. by rewrite dict_setitem_other. Qed.

Lemma dict_get_setitem h d k v items :
  h !! d = Some (PyDict items) → dict_get d k (dict_setitem d k v h) = Some v.
Proof.
  intros Hd. unfold dict_get, dict_setitem. rewrite Hd.
  rewrite dict_items_insert. apply lookup_insert_eq.
Qed.

(** Both interpreter classes keep the namespace they are constructed with,
    and the namespace of a factory is a live dictionary. *)
Lemma init_stores_namespace : stores_namespace InteractiveInterpreter.init.
Proof. by intros ns bn. Qed.

Lemma threaded_stores_namespace (command_timeout : option Z) :
  stores_namespace
    (fun ns bn =>
       ThreadedInteractiveInterpreter.as_interpreter
         (ThreadedInteractiveInterpreter.init ns bn command_timeout)).
Proof. by intros ns bn. Qed.

Lemma factory_namespace_live
    (cls : loc → banner_t → InteractiveInterpreter.t)
    (ns : option loc) (sh : bool) (bn : banner_t) h :
  ∃ items,
    (init cls ns sh bn h).2 !! namespace (init cls ns sh bn h).1
    = Some (PyDict items).
Proof.
  unfold init, dict_new.
  destruct ns as [d|]; [ | exists ∅; cbn; apply lookup_insert_eq].
  destruct (dict_truthy d h) eqn:Htruthy;
    [ | exists ∅; cbn; apply lookup_insert_eq].
  unfold dict_truthy, dict_items in Htruthy. cbn.
  destruct (h !! d) as [[items|tag]|]; [by exists items | done | done].
Qed.

(** C4: in shared mode every session the factory creates holds the
    factory's own namespace object, so a name bound through one session is
    found through another; in isolated mode each session holds a new
    dictionary with the items the template has when the connection is
    made, so a name bound in one session, before or after another session
    connects, is found in the other only if the template has it. *)
Theorem factory_namespace_policy f h (items : gmap string loc)
    (x : string) (v : loc) :
  stores_namespace (interpreter_class f) →
  h !! namespace f = Some (PyDict items) →
  (shared f = true →
     InteractiveInterpreter.namespace (call f h).1 = namespace f
     ∧ (call f h).2 = h
     ∧ InteractiveInterpreter.namespace (call f (call f h).2).1
       = InteractiveInterpreter.namespace (call f h).1
     ∧ lookup_name (call f (call f h).2).1 x
         (bind_name (call f h).1 x v (call f (call f h).2).2)
       = Some v)
  ∧ (shared f = false →
     h !! InteractiveInterpreter.namespace (call f h).1 = None
     ∧ dict_items (call f h).2 (InteractiveInterpreter.namespace (call f h).1)
       = items
     ∧ InteractiveInterpreter.namespace (call f (call f h).2).1
       ≠ InteractiveInterpreter.namespace (call f h).1
     ∧ lookup_name (call f h).1 x (bind_name (call f h).1 x v (call f h).2)
       = Some v
     ∧ lookup_name (call f (call f h).2).1 x
         (bind_name (call f h).1 x v (call f (call f h).2).2)
       = items !! x
     ∧ lookup_name (call f (bind_name (call f h).1 x v (call f h).2)).1 x
         (call f (bind_name (call f h).1 x v (call f h).2)).2
       = items !! x).
Proof.
  intros Hcls Htemplate. split; intros Hs.
  - rewrite !call_shared by done. cbn [fst snd]. rewrite !Hcls.
    repeat split; try done.
    unfold lookup_name, bind_name. rewrite !Hcls.
    by eapply dict_get_setitem.
  - assert (namespace f ≠ fresh (dom h)) as Hne
      by (apply live_not_fresh; by eexists).
    assert (dict_items h (namespace f) = items) as Hitems
      by (unfold dict_items; by rewrite Htemplate).
    rewrite (call_isolated f h) by done. cbn [fst snd]. rewrite !Hcls.
    set (a := fresh (dom h)).
    set (h1 := <[a := PyDict (dict_items h (namespace f))]> h).
    assert (h1 !! a = Some (PyDict items)) as Ha
      by (unfold h1; by rewrite lookup_insert_eq, Hitems).
    assert (dict_items h1 (namespace f) = items) as Hitems1.
    { unfold h1. by rewrite dict_items_insert_ne. }
    split; [apply fresh_not_live | ].
    split; [unfold h1; by rewrite dict_items_insert | ].
    split.
    { rewrite (call_isolated f h1) by done. cbn [fst]. rewrite Hcls.
      apply not_eq_sym, live_not_fresh. by eexists. }
    split.
    { unfold lookup_name, bind_name. rewrite !Hcls.
      by eapply dict_get_setitem. }
    split.
    + rewrite (call_isolated f h1) by done. cbn [fst snd].
      unfold lookup_name, bind_name, dict_get. rewrite !Hcls.
      rewrite dict_items_setitem_other
        by (apply live_not_fresh; by eexists).
      by rewrite dict_items_insert, Hitems1.
    + unfold bind_name. rewrite !Hcls.
      rewrite (call_isolated f (dict_setitem a x v h1)) by done.
      cbn [fst snd]. unfold lookup_name, dict_get. rewrite !Hcls.
      rewrite dict_items_insert.
      rewrite dict_items_setitem_other by done.
      by rewrite Hitems1.
Qed.

(** C10: in isolated mode the namespace of a new session maps every key
    to the reference the template maps it to; binding a name in it
    afterwards changes no other object, so neither the items of the
    template nor those of another session's namespace, and binding in the
    other session leaves this one alone. *)
Theorem isolated_namespace_is_shallow_copy f h (items : gmap string loc) :
  stores_namespace (interpreter_class f) →
  h !! namespace f = Some (PyDict items) →
  shared f = false →
  (∀ k, dict_get (InteractiveInterpreter.namespace (call f h).1) k (call f h).2
        = dict_get (namespace f) k h)
  ∧ (∀ k r, dict_get (namespace f) k h = Some r →
            dict_get (InteractiveInterpreter.namespace (call f h).1) k
              (call f h).2 = Some r)
  ∧ (∀ k v d, d ≠ InteractiveInterpreter.namespace (call f h).1 →
              bind_name (call f h).1 k v (call f h).2 !! d = h !! d)
  ∧ (∀ k v, dict_items (bind_name (call f h).1 k v (call f h).2) (namespace f)
            = items)
  ∧ (∀ k v,
       dict_items
         (bind_name (call f h).1 k v (call f (call f h).2).2)
         (InteractiveInterpreter.namespace (call f (call f h).2).1)
       = items
       ∧ dict_items
           (bind_name (call f (call f h).2).1 k v (call f (call f h).2).2)
           (InteractiveInterpreter.namespace (call f h).1)
         = items).
Proof.
  intros Hcls Htemplate Hs.
  assert (namespace f ≠ fresh (dom h)) as Hne
    by (apply live_not_fresh; by eexists).
  assert (dict_items h (namespace f) = items) as Hitems
    by (unfold dict_items; by rewrite Htemplate).
  rewrite (call_isolated f h) by done. cbn [fst snd]. rewrite !Hcls.
  set (a := fresh (dom h)).
  set (h1 := <[a := PyDict (dict_items h (namespace f))]> h).
  assert (dict_items h1 (namespace f) = items) as Hitems1.
  { unfold h1. by rewrite dict_items_insert_ne. }
  assert (∀ k, dict_get a k h1 = dict_get (namespace f) k h) as Hsame.
  { intros k. unfold dict_get, h1. by rewrite dict_items_insert. }
  split; [done | ].
  split; [intros k r Hr; by rewrite Hsame | ].
  split.
  { intros k v d Hd. unfold bind_name. rewrite Hcls.
    rewrite dict_setitem_other by done.
    unfold h1. by rewrite lookup_insert_ne. }
  split.
  { intros k v. unfold bind_name. rewrite Hcls.
    by rewrite dict_items_setitem_other. }
  intros k v. rewrite (call_isolated f h1) by done. cbn [fst snd].
  unfold bind_name. rewrite !Hcls.
  assert (a ≠ fresh (dom h1)) as Hab.
  { apply live_not_fresh. unfold h1. rewrite lookup_insert_eq. by eexists. }
  split.
  - rewrite dict_items_setitem_other by done.
    by rewrite dict_items_insert.
  - rewrite dict_items_setitem_other by done.
    rewrite dict_items_insert_ne by done.
    unfold h1. by rewrite dict_items_insert.
Qed.
End Namespaces.

Lemma factory_namespace_policy_witness :
  lookup_name
    (InterpreterFactory.call (sample_factory true)
       (InterpreterFactory.call (sample_factory true) sample_heap).2).1 "x"
    (bind_name (InterpreterFactory.call (sample_factory true) sample_heap).1
       "x" 2%positive
       (InterpreterFactory.call (sample_factory true)
          (InterpreterFactory.call (sample_factory true) sample_heap).2).2)
  = Some 2%positive
  ∧ lookup_name
      (InterpreterFactory.call (sample_factory false)
         (InterpreterFactory.call (sample_factory false) sample_heap).2).1 "x"
      (bind_name (InterpreterFactory.call (sample_factory false) sample_heap).1
         "x" 2%positive
         (InterpreterFactory.call (sample_factory false)
            (InterpreterFactory.call (sample_factory false) sample_heap).2).2)
    = None.
Proof.
  split.
  - destruct (factory_namespace_policy (sample_factory true) sample_heap
                sample_items "x" 2%positive) as [Hshared _];
      [intros ns bn; reflexivity | reflexivity | ].
    destruct (Hshared eq_refl) as (_ & _ & _ & Hfound). exact Hfound.
  - destruct (factory_namespace_policy (sample_factory false) sample_heap
                sample_items "x" 2%positive) as [_ Hisolated];
      [intros ns bn; reflexivity | reflexivity | ].
    destruct (Hisolated eq_refl) as (_ & _ & _ & _ & Hother & _).
    rewrite Hother. reflexivity.
Defined.

Lemma isolated_namespace_is_shallow_copy_witness :
  dict_get
    (InteractiveInterpreter.namespace
       (InterpreterFactory.call (sample_factory false) sample_heap).1)
    "answer" (InterpreterFactory.call (sample_factory false) sample_heap).2
  = Some 2%positive.
Proof.
  destruct (isolated_namespace_is_shallow_copy (sample_factory false)
              sample_heap sample_items) as (_ & Hsame & _);
    [intros ns bn; reflexivity | reflexivity | reflexivity | ].
  apply Hsame. reflexivity.
Defined.

(** ** start_manhole *)

Lemma start_manhole_needs_address (banner : banner_t) (host : string)
    (namespace : option loc) (threaded : bool) (command_timeout : option Z)
    (shared : bool) (h : heap) :
  start_manhole banner host None None namespace threaded command_timeout
    shared h = (Raise ValueError, h).
Proof. reflexivity. Qed.


(** C8, on the code: with no port and the empty string for a path, no error
    is raised and no listener is asked for. *)
Theorem start_manhole_empty_path (banner : banner_t) (host : string)
    (namespace : option loc) (threaded : bool) (command_timeout : option Z)
    (shared : bool) (h : heap) :
  (start_manhole banner host None (Some EmptyString) namespace threaded
     command_timeout shared h).1 = Return [].
Proof.
  unfold start_manhole.
  by destruct (InterpreterFactory.init _ namespace shared banner h).
Qed.

(** * Further properties *)

(** ** UTF-8 and the lines of a command *)

Lemma utf8_valid_cons (b0 : Byte.byte) (r0 : bytes) :
  utf8_valid (b0 :: r0) =
  if in_range 0 127 b0 then utf8_valid r0
  else
    match r0 with
    | [] => false
    | b1 :: r1 =>
      if in_range 194 223 b0 then continuation b1 && utf8_valid r1
      else
        match r1 with
        | [] => false
        | b2 :: r2 =>
          if in_range 224 239 b0
          then second_of_three b0 b1 && continuation b2 && utf8_valid r2
          else
            match r2 with
            | [] => false
            | b3 :: r3 =>
              in_range 240 244 b0 && second_of_four b0 b1
              && continuation b2 && continuation b3 && utf8_valid r3
            end
        end
    end.
Proof. by destruct r0 as [|b1 [|b2 [|b3 r3]]]. Qed.

Lemma second_of_three_nl (b0 : Byte.byte) : second_of_three b0 NL = false.
Proof.
  unfold second_of_three.
  by destruct (in_range 224 224 b0), (in_range 237 237 b0).
Qed.

Lemma second_of_four_nl (b0 : Byte.byte) : second_of_four b0 NL = false.
Proof.
  unfold second_of_four.
  by destruct (in_range 240 240 b0), (in_range 244 244 b0).
Qed.

Lemma utf8_valid_app_bounded (n : nat) :
  ∀ a rest : bytes,
    (length a ≤ n)%nat → utf8_valid a = true →
    utf8_valid (a ++ rest) = utf8_valid rest.
Proof.
  induction n as [|n IH]; intros a rest Hlen Ha.
  { destruct a; [done | simpl in Hlen; lia]. }
  destruct a as [|b0 r0]; [done | ].
  simpl in Hlen. rewrite utf8_valid_cons in Ha.
  change ((b0 :: r0) ++ rest) with (b0 :: (r0 ++ rest)).
  rewrite utf8_valid_cons.
  destruct (in_range 0 127 b0); [apply IH; [lia | done] | ].
  destruct r0 as [|b1 r1]; [done | ]. simpl in Hlen. cbn [app].
  destruct (in_range 194 223 b0).
  { apply andb_true_iff in Ha as [-> Hr]. cbn [andb]. apply IH; [lia | done]. }
  destruct r1 as [|b2 r2]; [done | ]. simpl in Hlen. cbn [app].
  destruct (in_range 224 239 b0).
  { apply andb_true_iff in Ha as [-> Hr]. cbn [andb]. apply IH; [lia | done]. }
  destruct r2 as [|b3 r3]; [done | ]. simpl in Hlen. cbn [app].
  apply andb_true_iff in Ha as [-> Hr]. cbn [andb]. apply IH; [lia | done].
Qed.

Lemma utf8_invalid_nl_bounded (n : nat) :
  ∀ a rest : bytes,
    (length a ≤ n)%nat → utf8_valid a = false →
    utf8_valid (a ++ NL :: rest) = false.
Proof.
  induction n as [|n IH]; intros a rest Hlen Ha.
  { destruct a; [done | simpl in Hlen; lia]. }
  destruct a as [|b0 r0]; [done | ].
  simpl in Hlen. rewrite utf8_valid_cons in Ha.
  change ((b0 :: r0) ++ NL :: rest) with (b0 :: (r0 ++ NL :: rest)).
  rewrite utf8_valid_cons.
  destruct (in_range 0 127 b0); [apply IH; [lia | done] | ].
  destruct r0 as [|b1 r1].
  { cbn [app]. destruct (in_range 194 223 b0); [done | ].
    destruct rest as [|b2 r2]; [done | ].
    rewrite second_of_three_nl, second_of_four_nl, !andb_false_r.
    destruct (in_range 224 239 b0); [done | by destruct r2]. }
  simpl in Hlen. cbn [app].
  destruct (in_range 194 223 b0).
  { destruct (continuation b1); [ | done]. cbn [andb] in *.
    apply IH; [lia | done]. }
  destruct r1 as [|b2 r2].
  { cbn [app]. change (continuation NL) with false.
    rewrite !andb_false_r.
    destruct (in_range 224 239 b0); [done | ].
    by destruct rest. }
  simpl in Hlen. cbn [app].
  destruct (in_range 224 239 b0).
  { destruct (second_of_three b0 b1 && continuation b2); [ | done].
    cbn [andb] in *. apply IH; [lia | done]. }
  destruct r2 as [|b3 r3].
  { cbn [app]. change (continuation NL) with false.
    by rewrite !andb_false_r. }
  simpl in Hlen. cbn [app].
  destruct (in_range 240 244 b0 && second_of_four b0 b1 && continuation b2
            && continuation b3); [ | done].
  cbn [andb] in *. apply IH; [lia | done].
Qed.

Lemma utf8_valid_app (a rest : bytes) :
  utf8_valid a = true → utf8_valid (a ++ rest) = utf8_valid rest.
Proof. by apply (utf8_valid_app_bounded (length a)). Qed.

Lemma utf8_invalid_nl (a rest : bytes) :
  utf8_valid a = false → utf8_valid (a ++ NL :: rest) = false.
Proof. by apply (utf8_invalid_nl_bounded (length a)). Qed.

Lemma utf8_valid_appended (cur line : bytes) :
  utf8_valid (appended cur line) = utf8_valid cur && utf8_valid line.
Proof.
  unfold appended. destruct cur as [|c cur']; [done | ]. cbn [truthy].
  destruct (utf8_valid (c :: cur')) eqn:Hcur.
  - rewrite utf8_valid_app by done. by rewrite utf8_valid_cons.
  - by rewrite utf8_invalid_nl.
Qed.

Lemma decode_utf8_None (bs : bytes) :
  decode_utf8 bs = None ↔ utf8_valid bs = false.
Proof. unfold decode_utf8. by destruct (utf8_valid bs). Qed.



(** A buffer and a line made of ASCII bytes only always decode. *)
Theorem ascii_always_decodes (bs : bytes) :
  Forall (fun c => in_range 0 127 c = true) bs →
  decode_utf8 bs = Some (String.string_of_list_byte bs).
Proof.
  intros Hascii. unfold decode_utf8.
  assert (utf8_valid bs = true) as ->; [ | done].
  induction Hascii as [|c bs Hc _ IH]; [done | ].
  by rewrite utf8_valid_cons, Hc.
Qed.

Lemma ascii_always_decodes_witness :
  decode_utf8 (bytes_of "1+1") = Some "1+1"%string.
Proof.
  apply (ascii_always_decodes (bytes_of "1+1")).
  repeat constructor.
Defined.

(** ** More on the accumulator *)

Section AccumulatorMore.
Context `{Host}.
Import StatefulCommandCompiler.

(** X2: when the buffer and the fed line are each valid UTF-8, the buffer
    with the line appended decodes, so the parser is consulted, and the
    buffer the call leaves is valid UTF-8 again: a character is never split
    by the separator. *)
Theorem valid_lines_reach_the_parser (source : bytes) (self : t) :
  utf8_valid (buf self) = true → utf8_valid source = true →
  decode_utf8 (appended (buf self) source)
    = Some (String.string_of_list_byte (appended (buf self) source))
  ∧ utf8_valid (buf (call source self).2) = true.
Proof.
  intros Hbuf Hsource.
  assert (utf8_valid (appended (buf self) source) = true) as Hv
    by (by rewrite utf8_valid_appended, Hbuf, Hsource).
  assert (decode_utf8 (appended (buf self) source)
          = Some (String.string_of_list_byte (appended (buf self) source)))
    as Hd by (unfold decode_utf8; by rewrite Hv).
  split; [done | ].
  rewrite call_settles. cbv zeta. rewrite Hd.
  by destruct (command_compiler _).
Qed.

Lemma call_undecodable (source : bytes) (self : t) :
  utf8_valid (buf self) = false →
  call source self
  = (Raise UnicodeDecodeError, {| buf := buf self ++ NL :: source |}).
Proof.
  intros Hbad. rewrite call_settles. cbv zeta.
  assert (buf self ≠ []) as Hne by (intros Heq; by rewrite Heq in Hbad).
  rewrite appended_nonempty by done.
  assert (decode_utf8 (buf self ++ NL :: source) = None) as ->; [ | done].
  apply decode_utf8_None. by apply utf8_invalid_nl.
Qed.

(** X3: once the buffer holds bytes that are not valid UTF-8, nothing fed
    to the compiler brings it back: every further call raises
    [UnicodeDecodeError] without consulting the parser, and the buffer only
    grows by the separators and the lines. *)
Theorem undecodable_buffer_stays (lines : list bytes) :
  ∀ self : t,
    decode_utf8 (buf self) = None →
    feed_lines lines self
    = (replicate (length lines) (Raise UnicodeDecodeError),
       {| buf := buf self ++ concat ((fun line => NL :: line) <$> lines) |})
    ∧ decode_utf8 (buf (feed_lines lines self).2) = None.
Proof.
  induction lines as [|line rest IH]; intros self Hbad.
  - cbn. rewrite app_nil_r. by destruct self.
  - apply decode_utf8_None in Hbad.
    cbn [feed_lines]. rewrite call_undecodable by done.
    destruct (IH {| buf := buf self ++ NL :: line |}) as [Hfeed Hstill].
    { apply decode_utf8_None. by apply utf8_invalid_nl. }
    rewrite Hfeed in Hstill |- *. cbn [buf snd] in *.
    split; [ | done].
    cbn. by rewrite <- app_assoc.
Qed.

(** X4: after a call the buffer is empty when a unit was returned, and
    otherwise holds the appended bytes; so [is_partial_command] then tells
    whether no unit came back and the buffer or the line had a byte. *)
Theorem partial_after_call (source : bytes) (self : t) :
  buf (call source self).2
  = match (call source self).1 with
    | Return (Some _) => []
    | _ => appended (buf self) source
    end
  ∧ is_partial_command (call source self).2
    = match (call source self).1 with
      | Return (Some _) => false
      | _ => truthy (buf self) || truthy source
      end.
Proof.
  assert (truthy (appended (buf self) source)
          = truthy (buf self) || truthy source) as Htruthy.
  { unfold appended. destruct (buf self) as [|c cur]; [done | ].
    cbn [truthy orb]. by destruct cur. }
  rewrite call_settles. cbv zeta. unfold is_partial_command, getvalue.
  destruct (decode_utf8 _); [ | done].
  by destruct (command_compiler _).
Qed.
End AccumulatorMore.

Lemma valid_lines_reach_the_parser_witness :
  utf8_valid
    (StatefulCommandCompiler.buf
       (@StatefulCommandCompiler.call sample_host [Byte.xc3; Byte.xa9]
          {| StatefulCommandCompiler.buf := bytes_of "def f():" |}).2) = true.
Proof.
  apply (valid_lines_reach_the_parser (H := sample_host) [Byte.xc3; Byte.xa9]
           {| StatefulCommandCompiler.buf := bytes_of "def f():" |});
    reflexivity.
Defined.

Lemma undecodable_buffer_stays_witness :
  @StatefulCommandCompiler.feed_lines sample_host
    [bytes_of "1+1"; []] {| StatefulCommandCompiler.buf := [Byte.xff] |}
  = ([Raise UnicodeDecodeError; Raise UnicodeDecodeError],
     {| StatefulCommandCompiler.buf :=
          [Byte.xff] ++ NL :: bytes_of "1+1" ++ [NL] |}).
Proof.
  refine (eq_trans
    (proj1 (undecodable_buffer_stays (H := sample_host) [bytes_of "1+1"; []]
              {| StatefulCommandCompiler.buf := [Byte.xff] |} _)) _);
    reflexivity.
Defined.

(** ** The line handed to the compiler *)

Lemma rstrip_nl_snoc (line : bytes) : rstrip_nl (line ++ [NL]) = rstrip_nl line.
Proof.
  induction line as [|c line IH]; [done | ].
  cbn [app rstrip_nl]. by rewrite IH.
Qed.

Lemma rstrip_nl_id (body : bytes) :
  last body ≠ Some NL → rstrip_nl body = body.
Proof.
  induction body as [|c body IH]; [done | ].
  intros Hlast. cbn [rstrip_nl].
  destruct body as [|c' body'].
  - cbn. destruct (Byte.eqb c NL) eqn:Heq; [ | done].
    apply Byte.byte_dec_bl in Heq. by subst c.
  - rewrite IH by (by rewrite last_cons_cons in Hlast). done.
Qed.

Lemma rstrip_nl_newlines (k : nat) : rstrip_nl (replicate k NL) = [].
Proof.
  induction k as [|k IH]; [done | ].
  by rewrite replicate_S_end, rstrip_nl_snoc.
Qed.

(** X5: [rstrip_nl] removes the newlines at the end of a line and nothing
    else: a body that does not end in a newline comes back from any number
    of newlines added to it, and every line is what is left of it followed
    by newlines only. *)
Theorem rstrip_nl_strips_exactly (body line : bytes) (k : nat) :
  last body ≠ Some NL →
  rstrip_nl (body ++ replicate k NL) = body
  ∧ last (rstrip_nl line) ≠ Some NL
  ∧ ∃ j, line = rstrip_nl line ++ replicate j NL.
Proof.
  intros Hlast. split.
  - induction k as [|k IH]; [rewrite app_nil_r; by apply rstrip_nl_id | ].
    rewrite replicate_S_end, app_assoc. by rewrite rstrip_nl_snoc.
  - induction line as [|c line [IHlast [j IHj]]]; [split; [done | by exists 0%nat] | ].
    cbn [rstrip_nl]. destruct (rstrip_nl line) as [|c' rest] eqn:Hrest.
    + destruct (Byte.eqb c NL) eqn:Heq.
      * apply Byte.byte_dec_bl in Heq. subst c.
        split; [done | ]. exists (S j). by rewrite IHj at 1.
      * apply Byte.eqb_false in Heq.
        split; [cbn; congruence | ]. exists j. by rewrite IHj at 1.
    + split; [by rewrite last_cons_cons | ].
      exists j. by rewrite IHj at 1.
Qed.

Lemma rstrip_nl_strips_exactly_witness :
  rstrip_nl (bytes_of "1+1" ++ replicate 2 NL) = bytes_of "1+1".
Proof.
  apply (rstrip_nl_strips_exactly (bytes_of "1+1") [] 2). discriminate.
Defined.

(** ** One pass of a session *)

Section Pass.
Context `{Host}.
Import InteractiveInterpreter.

Lemma read_command_settles (w : turn) (self : t) (line : bytes) :
  readline w = Return line → line ≠ [] →
  read_command w self =
  match decode_utf8
          (appended (StatefulCommandCompiler.buf (compiler self))
             (rstrip_nl line)) with
  | None =>
    (Raise UnicodeDecodeError,
     set_compiler
       {| StatefulCommandCompiler.buf :=
            appended (StatefulCommandCompiler.buf (compiler self))
              (rstrip_nl line) |} self)
  | Some text =>
    match command_compiler text with
    | Code c => (Return (Some c), set_compiler StatefulCommandCompiler.init self)
    | Incomplete =>
      (Return None,
       set_compiler
         {| StatefulCommandCompiler.buf :=
              appended (StatefulCommandCompiler.buf (compiler self))
                (rstrip_nl line) |} self)
    | CompileError e =>
      if isinstance e SyntaxError
      then (match reply_drain w with
            | None => Return None
            | Some e' => Raise e'
            end,
            set_written (written self ++ [encode_utf8 (format_exc e)])
              (set_compiler StatefulCommandCompiler.init self))
      else (Raise e,
            set_compiler
              {| StatefulCommandCompiler.buf :=
                   appended (StatefulCommandCompiler.buf (compiler self))
                     (rstrip_nl line) |} self)
    end
  end.
Proof.
  intros Hline Hne.
  rewrite (read_command_line w self line) by done.
  unfold try_except. rewrite attempt_compile_settles, call_settles.
  cbv zeta. destruct (decode_utf8 _) as [text|]; [ | done].
  destruct (command_compiler text) as [c| |e]; try done.
  cbn [fst snd]. destruct (isinstance e SyntaxError); [ | done].
  unfold bind at 1. rewrite send_exception_effect.
  by destruct (reply_drain w).
Qed.

Lemma one_pass_delivered (w : turn) (self : t) (line : bytes) :
  delivers w line →
  one_pass w self =
  match read_command w
          (set_written
             (written self
                ++ [encode_utf8
                      (if StatefulCommandCompiler.is_partial_command
                            (compiler self)
                       then ps2 else ps1)]) self) with
  | (Return (Some c), self') => run_command c w self'
  | (Return None, self') => (Return tt, self')
  | (Raise e, self') => (Raise e, self')
  end.
Proof.
  intros (Hprompt & _ & _). unfold one_pass, bind at 1.
  rewrite write_prompt_effect, Hprompt. unfold bind.
  by destruct (read_command w _) as [[[c|]|e] self'].
Qed.


(** X7: a turn whose line leaves the command incomplete: the client is sent
    the prompt and nothing else, nothing is executed, the buffer holds the
    appended line, and the next prompt is the continuation prompt when that
    buffer is not empty. *)
Theorem pass_keeps_pending (w : turn) (self : t) (line : bytes) :
  delivers w line →
  pending
    (appended (StatefulCommandCompiler.buf (compiler self)) (rstrip_nl line)) →
  one_pass w self
  = (Return tt,
     set_written
       (written self
          ++ [encode_utf8
                (if StatefulCommandCompiler.is_partial_command (compiler self)
                 then ps2 else ps1)])
       (set_compiler
          {| StatefulCommandCompiler.buf :=
               appended (StatefulCommandCompiler.buf (compiler self))
                 (rstrip_nl line) |} self))
  ∧ (appended (StatefulCommandCompiler.buf (compiler self)) (rstrip_nl line)
       ≠ [] →
     ∀ d, written (write_prompt d (one_pass w self).2).2
          = written (one_pass w self).2 ++ [encode_utf8 ps2]).
Proof.
  intros Hdel (text & Hd & Hc).
  assert (one_pass w self
          = (Return tt,
             set_written
               (written self
                  ++ [encode_utf8
                        (if StatefulCommandCompiler.is_partial_command
                              (compiler self)
                         then ps2 else ps1)])
               (set_compiler
                  {| StatefulCommandCompiler.buf :=
                       appended (StatefulCommandCompiler.buf (compiler self))
                         (rstrip_nl line) |} self))) as Hpass.
  { rewrite (one_pass_delivered w self line) by done.
    destruct Hdel as (_ & Hline & Hne).
    rewrite (read_command_settles w _ line) by done.
    cbn [compiler set_written]. rewrite Hd, Hc. by destruct self. }
  split; [done | ].
  intros Hwhole d. rewrite Hpass, write_prompt_effect.
  cbn [snd written set_written compiler set_compiler].
  unfold StatefulCommandCompiler.is_partial_command,
    StatefulCommandCompiler.getvalue.
  cbn [StatefulCommandCompiler.buf].
  by rewrite (truthy_nonempty _ Hwhole).
Qed.


(** X9: a line of newlines only is not the end of the stream: at a
    continuation prompt it appends one separator to the buffer, and when
    the parser then finds the command complete the unit is returned and the
    buffer emptied. *)
Theorem blank_line_closes_block (w : turn) (self : t) (k : nat)
    (text : string) (c : code) :
  readline w = Return (replicate (S k) NL) →
  StatefulCommandCompiler.buf (compiler self) ≠ [] →
  decode_utf8 (StatefulCommandCompiler.buf (compiler self) ++ [NL])
    = Some text →
  command_compiler text = Code c →
  read_command w self
  = (Return (Some c), set_compiler StatefulCommandCompiler.init self).
Proof.
  intros Hline Hcur Hd Hc.
  rewrite (read_command_settles w self (replicate (S k) NL)) by done.
  rewrite rstrip_nl_newlines.
  rewrite appended_nonempty by done. by rewrite Hd, Hc.
Qed.
End Pass.

Lemma delivers_sends (line : bytes) :
  line ≠ [] → @delivers sample_host (sends line) line.
Proof. by intros Hne. Qed.


Lemma pass_keeps_pending_witness :
  InteractiveInterpreter.written
    (InteractiveInterpreter.write_prompt (H := sample_host) None
       (InteractiveInterpreter.one_pass (sends (bytes_of "def f():" ++ [NL]))
          sample_session).2).2
  = [bytes_of ">>> "; bytes_of "... "].
Proof.
  destruct (pass_keeps_pending (H := sample_host)
              (sends (bytes_of "def f():" ++ [NL])) sample_session
              (bytes_of "def f():" ++ [NL])) as [Hpass Hnext].
  - by apply delivers_sends.
  - by exists "def f():"%string.
  - rewrite Hnext by discriminate. rewrite Hpass. reflexivity.
Defined.


Lemma blank_line_closes_block_witness :
  InteractiveInterpreter.read_command (sends [NL])
    (InteractiveInterpreter.set_compiler
       {| StatefulCommandCompiler.buf :=
            bytes_of "def f():" ++ NL :: bytes_of "  return 1" |}
       sample_session)
  = (Return (Some "def f(): return 1"%string), sample_session).
Proof.
  rewrite (blank_line_closes_block (H := sample_host) (sends [NL])
             (InteractiveInterpreter.set_compiler
                {| StatefulCommandCompiler.buf :=
                     bytes_of "def f():" ++ NL :: bytes_of "  return 1" |}
                sample_session) 0
             ("def f():" +:+ newline +:+ "  return 1" +:+ newline)
             "def f(): return 1"%string);
    [reflexivity | reflexivity | discriminate | reflexivity | reflexivity].
Defined.

(** ** The strategies inside a session *)

Section Strategies.
Context `{Host}.
Import InteractiveInterpreter.

Lemma run_command_by_answer (c : code) (w : turn) (self : t) :
  run_command c w self =
  match answer (real_exec self (run w c (namespace self))) with
  | Return value =>
    send_output value (output (run w c (namespace self))) (reply_drain w) self
  | Raise e =>
    if isinstance e Exception then send_exception e (reply_drain w) self
    else (Raise e, self)
  end.
Proof.
  unfold run_command, attempt_exec.
  by destruct (answer (real_exec self (run w c (namespace self)))).
Qed.


End Strategies.



(** ** What a session keeps *)

Section Invariants.
Context `{Host}.
Import InteractiveInterpreter.

Lemma only_writes_refl (self : t) : only_writes self self.
Proof. repeat split. exists []. by rewrite app_nil_r. Qed.

Lemma only_writes_trans (s1 s2 s3 : t) :
  only_writes s1 s2 → only_writes s2 s3 → only_writes s1 s3.
Proof.
  intros (Hn1 & Hb1 & Hr1 & Hc1 & Hp1 & sent1 & Hw1)
         (Hn2 & Hb2 & Hr2 & Hc2 & Hp2 & sent2 & Hw2).
  repeat split; try congruence.
  exists (sent1 ++ sent2). by rewrite Hw2, Hw1, app_assoc.
Qed.

Lemma only_writes_set_written (self : t) (sent : list bytes) :
  only_writes self (set_written (written self ++ sent) self).
Proof. repeat split. by exists sent. Qed.

Lemma only_writes_set_compiler (self : t) (c : StatefulCommandCompiler.t) :
  only_writes self (set_compiler c self).
Proof. repeat split. exists []. cbn. by rewrite app_nil_r. Qed.

Lemma writes_only_bind {A B} (m : M A) (k : A → M B) :
  writes_only m → (∀ a, writes_only (k a)) → writes_only (bind m k).
Proof.
  intros Hm Hk self. unfold bind. specialize (Hm self).
  destruct (m self) as [[a|e] self']; [ | done].
  eapply only_writes_trans; [exact Hm | apply Hk].
Qed.

Lemma writes_only_try_except {A} (m : M A) (C : exc_class)
    (handler : exn → M A) :
  writes_only m → (∀ e, writes_only (handler e)) →
  writes_only (try_except m C handler).
Proof.
  intros Hm Hh self. unfold try_except. specialize (Hm self).
  destruct (m self) as [[a|e] self']; [done | ].
  destruct (isinstance e C); [ | done].
  eapply only_writes_trans; [exact Hm | apply Hh].
Qed.

Lemma writes_only_send_exception (e : exn) (drain : option exn) :
  writes_only (send_exception e drain).
Proof.
  intros self. rewrite send_exception_effect. cbn [snd].
  eapply only_writes_trans; [apply only_writes_set_compiler | ].
  apply (only_writes_set_written (set_compiler _ self)).
Qed.

Lemma writes_only_send_output (value : option loc) (stdout : string)
    (drain : option exn) :
  writes_only (send_output value stdout drain).
Proof.
  intros self. rewrite send_output_effect. apply only_writes_set_written.
Qed.

Lemma writes_only_write_prompt (drain : option exn) :
  writes_only (write_prompt drain).
Proof.
  intros self. rewrite write_prompt_effect. apply only_writes_set_written.
Qed.

Lemma writes_only_run_command (c : code) (w : turn) :
  writes_only (run_command c w).
Proof.
  intros self. rewrite run_command_by_answer.
  destruct (answer _) as [value|e]; [apply writes_only_send_output | ].
  destruct (isinstance e Exception);
    [apply writes_only_send_exception | apply only_writes_refl].
Qed.

Lemma writes_only_read_command (w : turn) : writes_only (read_command w).
Proof.
  unfold read_command. apply writes_only_bind.
  { intros self. apply only_writes_refl. }
  intros line. destruct (truthy line);
    [ | intros self; apply only_writes_refl].
  apply writes_only_try_except.
  - intros self. rewrite attempt_compile_settles.
    apply only_writes_set_compiler.
  - intros e. apply writes_only_bind;
      [apply writes_only_send_exception | ].
    intros _ self. apply only_writes_refl.
Qed.

Lemma writes_only_one_pass (w : turn) : writes_only (one_pass w).
Proof.
  unfold one_pass. apply writes_only_bind; [apply writes_only_write_prompt | ].
  intros _. apply writes_only_bind; [apply writes_only_read_command | ].
  intros [c|]; [apply writes_only_run_command | ].
  intros self. apply only_writes_refl.
Qed.

Lemma handle_one_command_only_writes (script : list turn) :
  ∀ self, only_writes self (handle_one_command script self).2.
Proof.
  induction script as [|w rest IH]; intros self; [apply only_writes_refl | ].
  cbn [handle_one_command].
  pose proof (writes_only_one_pass w self) as Hpass.
  destruct (one_pass w self) as [[[]|e] self']; [ | done].
  eapply only_writes_trans; [exact Hpass | apply IH].
Qed.

Lemma handle_one_command_consumes (script : list turn) :
  ∀ self e rest self',
    handle_one_command script self = (Some (e, rest), self') →
    (length rest < length script)%nat.
Proof.
  induction script as [|w script IH]; intros self e rest self' Hrun; [done | ].
  cbn [handle_one_command] in Hrun.
  destruct (one_pass w self) as [[[]|e0] self0].
  - apply IH in Hrun. simpl. lia.
  - injection Hrun as _ <- _. simpl. lia.
Qed.

Lemma session_grows_refl (self : t) : session_grows self self.
Proof.
  repeat split; [exists [] | exists []]; rewrite app_nil_r; by try split.
Qed.

Lemma session_grows_trans (s1 s2 s3 : t) :
  session_grows s1 s2 → session_grows s2 s3 → session_grows s1 s3.
Proof.
  intros (Hn1 & Hb1 & Hr1 & [sent1 Hw1] & logged1 & Hp1 & Hl1)
         (Hn2 & Hb2 & Hr2 & [sent2 Hw2] & logged2 & Hp2 & Hl2).
  repeat split; try congruence.
  - exists (sent1 ++ sent2). by rewrite Hw2, Hw1, app_assoc.
  - exists (logged1 ++ logged2). split; [ | by apply Forall_app].
    by rewrite Hp2, Hp1, app_assoc.
Qed.

Lemma only_writes_grows (self self' : t) :
  only_writes self self' → session_grows self self'.
Proof.
  intros (Hn & Hb & Hr & Hc & Hp & Hw). repeat split; try done.
  exists []. rewrite app_nil_r. by split.
Qed.

Lemma call_loop_grows (fuel : nat) :
  ∀ (script : list turn) (self : t),
    session_grows self (call_loop fuel script self).2.
Proof.
  induction fuel as [|fuel IH]; intros script self;
    [apply session_grows_refl | ].
  cbn [call_loop].
  pose proof (handle_one_command_only_writes script self) as Hinner.
  apply only_writes_grows in Hinner.
  destruct (handle_one_command script self) as [[[e rest]|] self'];
    [ | done].
  cbn [snd] in Hinner.
  destruct (isinstance e ConnectionResetError) eqn:Hreset.
  { eapply session_grows_trans; [exact Hinner | ].
    repeat split; [exists [] | exists []]; cbn; rewrite app_nil_r;
      by try split. }
  destruct (isinstance e Exception) eqn:Hexc; [ | done].
  eapply session_grows_trans; [exact Hinner | ].
  eapply session_grows_trans; [ | apply IH].
  repeat split; [exists []; by rewrite app_nil_r | ].
  exists [e]. split; [done | ]. by repeat constructor.
Qed.

(** X12: whatever the clients and the commands do, [__call__] never changes
    the namespace the session runs against, its banner or its execution
    method; it never takes back what it has written or logged; and every
    exception it logs is an [Exception] other than [ConnectionResetError]. *)
Theorem session_only_grows (banner_drain : option exn) (script : list turn)
    (self : t) :
  session_grows self (call banner_drain script self).2.
Proof.
  unfold call.
  destruct (truthy (banner self)); [ | apply call_loop_grows].
  unfold bind, writer_write. cbn [fst snd].
  assert (session_grows self (set_written (written self ++ [banner self]) self))
    as Hbanner by apply only_writes_grows, only_writes_set_written.
  destruct banner_drain as [e|]; [done | ].
  eapply session_grows_trans; [exact Hbanner | apply call_loop_grows].
Qed.

(** X13: the loop closes the writer exactly when it ends on a
    [ConnectionResetError]: while it serves, and when an exception escapes
    it, the writer is left open. *)
Theorem writer_closed_exactly_on_reset (fuel : nat) :
  ∀ (script : list turn) (self : t),
    closed self = false →
    closed (call_loop fuel script self).2 = true
    ↔ (call_loop fuel script self).1 = Closed.
Proof.
  induction fuel as [|fuel IH]; intros script self Hopen.
  { cbn [call_loop fst snd]. by rewrite Hopen. }
  cbn [call_loop].
  pose proof (handle_one_command_only_writes script self)
    as (_ & _ & _ & Hclosed & _).
  destruct (handle_one_command script self) as [[[e rest]|] self'];
    cbn [fst snd] in *; [ | by rewrite Hclosed, Hopen].
  destruct (isinstance e ConnectionResetError); [done | ].
  destruct (isinstance e Exception).
  - apply IH. cbn. congruence.
  - cbn [fst snd]. by rewrite Hclosed, Hopen.
Qed.

Lemma call_loop_fuel (fuel : nat) :
  ∀ (fuel' : nat) (script : list turn) (self : t),
    (length script < fuel)%nat → (length script < fuel')%nat →
    call_loop fuel script self = call_loop fuel' script self.
Proof.
  induction fuel as [|fuel IH]; intros fuel' script self Hfuel Hfuel';
    [lia | ].
  destruct fuel' as [|fuel']; [lia | ].
  cbn [call_loop].
  destruct (handle_one_command script self) as [[[e rest]|] self'] eqn:Hrun;
    [ | done].
  apply handle_one_command_consumes in Hrun.
  destruct (isinstance e ConnectionResetError); [done | ].
  destruct (isinstance e Exception); [ | done].
  apply IH; lia.
Qed.
End Invariants.

Lemma writer_closed_exactly_on_reset_witness :
  InteractiveInterpreter.closed
    (@InteractiveInterpreter.call_loop sample_host 2 [sends []]
       sample_session).2 = true.
Proof.
  apply (writer_closed_exactly_on_reset (H := sample_host) 2 [sends []]
           sample_session); reflexivity.
Defined.

Section Stuck.
Context `{Host}.
Import InteractiveInterpreter.

(** X14: a session whose buffer holds bytes that are not valid UTF-8 never
    gets out of it while lines arrive: each line is answered with the
    continuation prompt alone, [UnicodeDecodeError] is logged for each, the
    loop goes on serving and the buffer stays undecodable. *)
Theorem undecodable_session_stays (script : list turn) :
  ∀ self : t,
    Forall (fun w => ∃ line, delivers w line) script →
    decode_utf8 (StatefulCommandCompiler.buf (compiler self)) = None →
    (call_loop (S (length script)) script self).1 = Serving
    ∧ written (call_loop (S (length script)) script self).2
      = written self ++ replicate (length script) (encode_utf8 ps2)
    ∧ printed (call_loop (S (length script)) script self).2
      = printed self ++ replicate (length script) UnicodeDecodeError
    ∧ decode_utf8
        (StatefulCommandCompiler.buf
           (compiler (call_loop (S (length script)) script self).2))
      = None.
Proof.
  induction script as [|w rest IH]; intros self Hscript Hbad.
  { cbn. by rewrite !app_nil_r. }
  apply Forall_cons in Hscript as [[line Hdel] Hrest].
  apply decode_utf8_None in Hbad.
  assert (StatefulCommandCompiler.buf (compiler self) ≠ []) as Hne
    by (intros Heq; by rewrite Heq in Hbad).
  cbn [length]. rewrite call_loop_step.
  rewrite (one_pass_delivered w self line) by done.
  destruct Hdel as (_ & Hline & Hline_ne).
  rewrite (read_command_settles w _ line) by done.
  cbn [compiler set_written]. rewrite appended_nonempty by done.
  assert (decode_utf8
            (StatefulCommandCompiler.buf (compiler self)
               ++ NL :: rstrip_nl line) = None) as Hstill
    by (apply decode_utf8_None; by apply utf8_invalid_nl).
  rewrite Hstill.
  change (isinstance UnicodeDecodeError ConnectionResetError) with false.
  change (isinstance UnicodeDecodeError Exception) with true. cbv iota.
  edestruct IH as (Hstatus & Hwritten & Hprinted & Hbuf);
    [exact Hrest | | rewrite Hstatus, Hwritten, Hprinted, Hbuf].
  { cbn. exact Hstill. }
  unfold StatefulCommandCompiler.is_partial_command,
    StatefulCommandCompiler.getvalue.
  rewrite (truthy_nonempty _ Hne). cbn.
  by rewrite <- !app_assoc.
Qed.

(** X15: the banner, when there is one, is what the client is sent first,
    before any prompt; when its drain raises, the exception leaves
    [__call__] before the loop is entered: no turn is taken and the writer
    is not closed, even for a [ConnectionResetError]. *)
Theorem banner_comes_first (script : list turn) (self : t) (e : exn) :
  banner self ≠ [] → closed self = false →
  (∃ sent,
     written (call None script self).2 = written self ++ banner self :: sent)
  ∧ call (Some e) script self
    = (Escaped e, set_written (written self ++ [banner self]) self)
  ∧ closed (call (Some e) script self).2 = false.
Proof.
  intros Hbanner Hopen. unfold call.
  rewrite (truthy_nonempty _ Hbanner). unfold bind, writer_write. cbn.
  split; [ | by split].
  destruct (call_loop_grows (S (length script)) script
              (set_written (written self ++ [banner self]) self))
    as (_ & _ & _ & [sent Hsent] & _).
  exists sent. cbn in Hsent. by rewrite Hsent, <- app_assoc.
Qed.
End Stuck.

Lemma undecodable_session_stays_witness :
  InteractiveInterpreter.printed
    (@InteractiveInterpreter.call_loop sample_host 3
       [sends (bytes_of "1+1" ++ [NL]); sends (bytes_of "x = 5" ++ [NL])]
       (InteractiveInterpreter.set_compiler
          {| StatefulCommandCompiler.buf := [Byte.xff] |} sample_session)).2
  = [UnicodeDecodeError; UnicodeDecodeError].
Proof.
  destruct (undecodable_session_stays (H := sample_host)
              [sends (bytes_of "1+1" ++ [NL]);
               sends (bytes_of "x = 5" ++ [NL])]
              (InteractiveInterpreter.set_compiler
                 {| StatefulCommandCompiler.buf := [Byte.xff] |}
                 sample_session)) as (_ & _ & Hprinted & _).
  - repeat constructor.
    + exists (bytes_of "1+1" ++ [NL]). by apply delivers_sends.
    + exists (bytes_of "x = 5" ++ [NL]). by apply delivers_sends.
  - reflexivity.
  - exact Hprinted.
Defined.

Lemma banner_comes_first_witness :
  @InteractiveInterpreter.call sample_host (Some ConnectionResetError)
    [sends (bytes_of "1+1" ++ [NL])]
    (InteractiveInterpreter.init 1%positive (BannerStr "hello"))
  = (InteractiveInterpreter.Escaped ConnectionResetError,
     InteractiveInterpreter.set_written [bytes_of "hello"]
       (InteractiveInterpreter.init 1%positive (BannerStr "hello"))).
Proof.
  destruct (banner_comes_first (H := sample_host)
              [sends (bytes_of "1+1" ++ [NL])]
              (InteractiveInterpreter.init 1%positive (BannerStr "hello"))
              ConnectionResetError) as (_ & Hescapes & _);
    [discriminate | reflexivity | exact Hescapes].
Defined.

(** ** More on the namespaces *)

Section NamespacesMore.
Implicit Types (h : heap) (f : InterpreterFactory.t) (d : loc).
Import InterpreterFactory.

Lemma dict_truthy_items h d (items : gmap string loc) :
  h !! d = Some (PyDict items) →
  dict_truthy d h = negb (bool_decide (items = ∅)).
Proof. intros Hd. unfold dict_truthy, dict_items. by rewrite Hd. Qed.

(** X16: the factory takes a non-empty mapping it is given as its
    namespace, the very object and with the heap untouched; given no
    mapping it makes a new empty dictionary, at an identity no live object
    has, and touches no live object. *)
Theorem factory_init_namespace
    (cls : loc → banner_t → InteractiveInterpreter.t) (sh : bool)
    (bn : banner_t) h d (items : gmap string loc) :
  h !! d = Some (PyDict items) → items ≠ ∅ →
  init cls (Some d) sh bn h
    = ({| interpreter_class := cls; namespace := d; shared := sh;
          banner := bn |}, h)
  ∧ h !! namespace (init cls None sh bn h).1 = None
  ∧ dict_items (init cls None sh bn h).2 (namespace (init cls None sh bn h).1)
    = ∅
  ∧ (∀ l, is_Some (h !! l) → (init cls None sh bn h).2 !! l = h !! l).
Proof.
  intros Hd Hitems. unfold init.
  rewrite (dict_truthy_items h d items Hd).
  rewrite bool_decide_eq_false_2 by done. cbn.
  split; [done | ]. split; [apply fresh_not_live | ].
  split; [apply dict_items_insert | ].
  intros l Hl. apply lookup_insert_ne. by apply not_eq_sym, live_not_fresh.
Qed.

(** X17: an empty mapping given to the factory is not the namespace the
    sessions get: [namespace or {}] replaces it by a new dictionary, so even
    in shared mode a name bound through a session never shows in the
    mapping the caller passed. *)
Theorem empty_namespace_is_replaced
    (cls : loc → banner_t → InteractiveInterpreter.t) (bn : banner_t) h d
    (x : string) (v : loc) :
  stores_namespace cls →
  h !! d = Some (PyDict ∅) →
  namespace (init cls (Some d) true bn h).1 ≠ d
  ∧ InteractiveInterpreter.namespace
      (call (init cls (Some d) true bn h).1 (init cls (Some d) true bn h).2).1
    ≠ d
  ∧ dict_items
      (bind_name
         (call (init cls (Some d) true bn h).1
            (init cls (Some d) true bn h).2).1 x v
         (call (init cls (Some d) true bn h).1
            (init cls (Some d) true bn h).2).2) d
    = ∅.
Proof.
  intros Hcls Hd. unfold init.
  rewrite (dict_truthy_items h d ∅ Hd).
  rewrite bool_decide_eq_true_2 by done. cbn [negb dict_new fst snd namespace].
  assert (d ≠ fresh (dom h)) as Hne by (apply live_not_fresh; by eexists).
  rewrite call_shared by done. cbn [fst snd namespace banner interpreter_class].
  unfold bind_name. rewrite Hcls.
  split; [done | ]. split; [done | ].
  rewrite dict_items_setitem_other by done.
  rewrite dict_items_insert_ne by done.
  unfold dict_items. by rewrite Hd.
Qed.


(** X19: in isolated mode a session's namespace is a snapshot of the
    template at the time of its connection: a name the host binds in the
    template afterwards is missing from the sessions that exist and found
    in the sessions that connect later. *)
Theorem isolated_snapshot_at_connection f h (items : gmap string loc)
    (k : string) (v : loc) :
  stores_namespace (interpreter_class f) →
  h !! namespace f = Some (PyDict items) →
  shared f = false →
  dict_get (InteractiveInterpreter.namespace (call f h).1) k
    (call f (dict_setitem (namespace f) k v (call f h).2)).2
  = items !! k
  ∧ dict_get
      (InteractiveInterpreter.namespace
         (call f (dict_setitem (namespace f) k v (call f h).2)).1) k
      (call f (dict_setitem (namespace f) k v (call f h).2)).2
    = Some v.
Proof.
  intros Hcls Htemplate Hs.
  assert (namespace f ≠ fresh (dom h)) as Hne
    by (apply live_not_fresh; by eexists).
  rewrite (call_isolated f h) by done. cbn [fst snd]. rewrite !Hcls.
  set (a := fresh (dom h)).
  assert (dict_items h (namespace f) = items) as ->
    by (unfold dict_items; by rewrite Htemplate).
  set (h1 := <[a := PyDict items]> h).
  assert (h1 !! namespace f = Some (PyDict items)) as Htemplate1
    by (unfold h1; by rewrite lookup_insert_ne).
  set (h2 := dict_setitem (namespace f) k v h1).
  assert (h2 !! a = Some (PyDict items)) as Ha.
  { unfold h2. rewrite dict_setitem_other by done.
    unfold h1. by rewrite lookup_insert_eq. }
  assert (dict_items h2 (namespace f) = <[k := v]> items) as Htemplate2.
  { unfold h2, dict_setitem. rewrite Htemplate1. apply dict_items_insert. }
  rewrite (call_isolated f h2) by done. cbn [fst snd]. rewrite !Hcls.
  unfold dict_get. split.
  - rewrite dict_items_insert_ne
      by (apply not_eq_sym, live_not_fresh; by eexists).
    unfold dict_items. by rewrite Ha.
  - rewrite dict_items_insert, Htemplate2. apply lookup_insert_eq.
Qed.

Lemma connect_isolated (n : nat) :
  ∀ f h (items : gmap string loc),
    stores_namespace (interpreter_class f) →
    h !! namespace f = Some (PyDict items) →
    shared f = false →
    NoDup (InteractiveInterpreter.namespace <$> (connect n f h).1)
    ∧ Forall (fun i => h !! InteractiveInterpreter.namespace i = None
                       ∧ (connect n f h).2 !! InteractiveInterpreter.namespace i
                         = Some (PyDict items))
        (connect n f h).1
    ∧ (∀ l, is_Some (h !! l) → (connect n f h).2 !! l = h !! l).
Proof.
  induction n as [|n IH]; intros f h items Hcls Htemplate Hs.
  { cbn. repeat split; [constructor | constructor]. }
  cbn [connect]. rewrite (call_isolated f h) by done.
  assert (namespace f ≠ fresh (dom h)) as Hne
    by (apply live_not_fresh; by eexists).
  assert (dict_items h (namespace f) = items) as ->
    by (unfold dict_items; by rewrite Htemplate).
  set (a := fresh (dom h)) in *.
  set (h1 := <[a := PyDict items]> h).
  destruct (IH f h1 items Hcls) as (Hnodup & Hall & Hkeeps); [ | done | ].
  { unfold h1. by rewrite lookup_insert_ne. }
  destruct (connect n f h1) as [rest h2]. cbn [fst snd] in *.
  assert (h1 !! a = Some (PyDict items)) as Ha
    by (unfold h1; by rewrite lookup_insert_eq).
  rewrite fmap_cons, Hcls. repeat split.
  - apply NoDup_cons. split; [ | done].
    intros Hin. apply list_elem_of_fmap in Hin as (i & -> & Hi).
    rewrite Forall_forall in Hall. destruct (Hall i Hi) as [Hfresh _].
    by rewrite Ha in Hfresh.
  - apply Forall_cons. split.
    + rewrite Hcls. split; [apply fresh_not_live | ].
      rewrite Hkeeps by (by eexists). done.
    + eapply Forall_impl; [exact Hall | ].
      intros i [Hfresh Hseeded]. split; [ | done].
      destruct (h !! InteractiveInterpreter.namespace i) as [o|] eqn:Hi;
        [ | done].
      assert (InteractiveInterpreter.namespace i ≠ a) as Hia
        by (apply live_not_fresh; by eexists).
      unfold h1 in Hfresh. rewrite lookup_insert_ne in Hfresh by done.
      congruence.
  - intros l Hl. rewrite Hkeeps.
    + unfold h1. apply lookup_insert_ne. by apply not_eq_sym, live_not_fresh.
    + unfold h1. rewrite lookup_insert_ne; [done | ].
      by apply not_eq_sym, live_not_fresh.
Qed.

(** X20: in isolated mode the sessions of any number of successive
    connections run against pairwise different dictionaries, none of which
    existed before, each holding the items of the template; the objects that
    were live before the connections are as they were. *)
Theorem connections_get_own_namespaces (n : nat) f h
    (items : gmap string loc) :
  stores_namespace (interpreter_class f) →
  h !! namespace f = Some (PyDict items) →
  shared f = false →
  length (connect n f h).1 = n
  ∧ NoDup (InteractiveInterpreter.namespace <$> (connect n f h).1)
  ∧ Forall (fun i => h !! InteractiveInterpreter.namespace i = None
                     ∧ dict_items (connect n f h).2
                         (InteractiveInterpreter.namespace i) = items)
      (connect n f h).1
  ∧ (∀ l, is_Some (h !! l) → (connect n f h).2 !! l = h !! l).
Proof.
  intros Hcls Htemplate Hs.
  destruct (connect_isolated n f h items Hcls Htemplate Hs)
    as (Hnodup & Hall & Hkeeps).
  split; [ | split; [done | split; [ | done]]].
  - clear. revert h. induction n as [|n IH]; intros h; [done | ].
    cbn [connect]. destruct (call f h) as [i h1].
    specialize (IH h1). destruct (connect n f h1) as [rest h2].
    cbn in *. by rewrite IH.
  - eapply Forall_impl; [exact Hall | ].
    intros i [Hfresh Hseeded]. split; [done | ].
    unfold dict_items. by rewrite Hseeded.
Qed.
End NamespacesMore.

Lemma sample_items_nonempty : sample_items ≠ ∅.
Proof.
  intros Heq. apply (f_equal (fun m : gmap string loc => m !! "answer"%string))
    in Heq. done.
Qed.

Lemma factory_init_namespace_witness :
  InterpreterFactory.namespace
    (InterpreterFactory.init InteractiveInterpreter.init (Some 1%positive)
       true BannerNone sample_heap).1 = 1%positive.
Proof.
  destruct (factory_init_namespace InteractiveInterpreter.init true BannerNone
              sample_heap 1%positive sample_items) as [Hkept _];
    [reflexivity | exact sample_items_nonempty | ].
  rewrite Hkept. reflexivity.
Defined.

Lemma empty_namespace_is_replaced_witness :
  dict_items
    (bind_name
       (InterpreterFactory.call
          (InterpreterFactory.init InteractiveInterpreter.init
             (Some 1%positive) true BannerNone {[ 1%positive := PyDict ∅ ]}).1
          (InterpreterFactory.init InteractiveInterpreter.init
             (Some 1%positive) true BannerNone {[ 1%positive := PyDict ∅ ]}).2).1
       "x" 2%positive
       (InterpreterFactory.call
          (InterpreterFactory.init InteractiveInterpreter.init
             (Some 1%positive) true BannerNone {[ 1%positive := PyDict ∅ ]}).1
          (InterpreterFactory.init InteractiveInterpreter.init
             (Some 1%positive) true BannerNone {[ 1%positive := PyDict ∅ ]}).2).2)
    1%positive
  = ∅.
Proof.
  apply (empty_namespace_is_replaced InteractiveInterpreter.init BannerNone
           {[ 1%positive := PyDict ∅ ]} 1%positive "x" 2%positive);
    [intros ns bn; reflexivity | reflexivity].
Defined.


Lemma isolated_snapshot_at_connection_witness :
  dict_get
    (InteractiveInterpreter.namespace
       (InterpreterFactory.call (sample_factory false) sample_heap).1) "x"
    (InterpreterFactory.call (sample_factory false)
       (dict_setitem 1%positive "x" 2%positive
          (InterpreterFactory.call (sample_factory false) sample_heap).2)).2
  = None.
Proof.
  destruct (isolated_snapshot_at_connection (sample_factory false) sample_heap
              sample_items "x" 2%positive) as [Hold _];
    [intros ns bn; reflexivity | reflexivity | reflexivity | ].
  exact Hold.
Defined.

Lemma connections_get_own_namespaces_witness :
  NoDup (InteractiveInterpreter.namespace
           <$> (connect 3 (sample_factory false) sample_heap).1).
Proof.
  destruct (connections_get_own_namespaces 3 (sample_factory false)
              sample_heap sample_items) as (_ & Hdistinct & _);
    [intros ns bn; reflexivity | reflexivity | reflexivity | exact Hdistinct].
Defined.

(** ** More on start_manhole *)

Lemma factory_init_fields
    (cls : loc → banner_t → InteractiveInterpreter.t) (ns : option loc)
    (sh : bool) (bn : banner_t) (h : heap) :
  InterpreterFactory.interpreter_class (InterpreterFactory.init cls ns sh bn h).1
    = cls
  ∧ InterpreterFactory.shared (InterpreterFactory.init cls ns sh bn h).1 = sh
  ∧ InterpreterFactory.banner (InterpreterFactory.init cls ns sh bn h).1 = bn.
Proof.
  unfold InterpreterFactory.init.
  destruct ns as [d|]; [ | done]. by destruct (dict_truthy d h).
Qed.



(** X22: every listener [start_manhole] asks for makes its sessions as
    configured: with the sharing mode and the banner given, keeping the
    namespace the factory hands them, and executing through [wait_for] with
    [command_timeout] (5 when omitted) if [threaded] is set and the timeout
    is not zero, and directly otherwise, so that [command_timeout] has no
    effect without [threaded]. *)
Theorem start_manhole_configures_sessions (banner : banner_t) (host : string)
    (port : option Z) (path : option string) (namespace : option loc)
    (threaded : bool) (command_timeout : option Z) (shared : bool) (h : heap)
    (coros : list server_request) (r : server_request) :
  (start_manhole banner host port path namespace threaded command_timeout
     shared h).1 = Return coros →
  r ∈ coros →
  InterpreterFactory.shared (client_cb_of r) = shared
  ∧ InterpreterFactory.banner (client_cb_of r) = banner
  ∧ stores_namespace (InterpreterFactory.interpreter_class (client_cb_of r))
  ∧ ∀ ns bn j,
      InteractiveInterpreter.banner
        (InterpreterFactory.interpreter_class (client_cb_of r) ns bn)
      = InteractiveInterpreter.get_banner bn
      ∧ InteractiveInterpreter.real_exec
          (InterpreterFactory.interpreter_class (client_cb_of r) ns bn) j
        = if threaded && negb (default 5 command_timeout =? 0)
          then wait_for j (default 5 command_timeout)
          else await j.
Proof.
  intros Hstart Hr.
  assert (∃ cls,
            InterpreterFactory.interpreter_class (client_cb_of r) = cls
            ∧ InterpreterFactory.shared (client_cb_of r) = shared
            ∧ InterpreterFactory.banner (client_cb_of r) = banner
            ∧ cls
              = if threaded
                then fun ns b =>
                       ThreadedInteractiveInterpreter.as_interpreter
                         (ThreadedInteractiveInterpreter.init ns b
                            (Some (default 5 command_timeout)))
                else InteractiveInterpreter.init) as (cls & Hcls & Hsh & Hbn & ->).
  { unfold start_manhole in Hstart.
    destruct port as [n|], path as [p|]; try done;
      match type of Hstart with
      | context [InterpreterFactory.init ?cls _ _ _ _] =>
        pose proof (factory_init_fields cls namespace shared banner h)
          as (Hc & Hs & Hb);
        destruct (InterpreterFactory.init cls namespace shared banner h)
          as [client_cb h'];
        exists cls
      end;
      cbn [fst snd] in *; try destruct (str_truthy p);
      injection Hstart as <-;
      repeat match goal with
             | H : _ ∈ _ :: _ |- _ => apply elem_of_cons in H as [-> | H]
             | H : _ ∈ [] |- _ => by apply elem_of_nil in H
             | H : _ ∈ _ ++ _ |- _ => apply elem_of_app in H as [H | H]
             end; done. }
  split; [done | ]. split; [done | ]. rewrite Hcls.
  destruct threaded; (split; [by intros ns bn | ]); intros ns bn j;
    (split; [done | ]); cbn [andb]; [ | done].
  cbn. unfold ThreadedInteractiveInterpreter._real_exec. cbn.
  case_bool_decide as Hzero.
  - by rewrite (proj2 (Z.eqb_neq _ _) Hzero).
  - by rewrite Hzero.
Qed.

Lemma start_manhole_configures_sessions_witness :
  InteractiveInterpreter.real_exec
    (InterpreterFactory.interpreter_class
       (client_cb_of
          (start_server
             (InterpreterFactory.init InteractiveInterpreter.init None false
                BannerNone ∅).1 "127.0.0.1" 8000))
       1%positive BannerNone) (slow_run "x = 5" 1%positive)
  = await (slow_run "x = 5" 1%positive).
Proof.
  destruct (start_manhole_configures_sessions BannerNone "127.0.0.1"
              (Some 8000) None None false (Some 1) false ∅
              [start_server
                 (InterpreterFactory.init InteractiveInterpreter.init None
                    false BannerNone ∅).1 "127.0.0.1" 8000]
              (start_server
                 (InterpreterFactory.init InteractiveInterpreter.init None
                    false BannerNone ∅).1 "127.0.0.1" 8000))
    as (_ & _ & _ & Hexec); [reflexivity | apply list_elem_of_here | ].
  apply (Hexec 1%positive BannerNone (slow_run "x = 5" 1%positive)).
Defined.

(** ** The prompts *)

(** X23: [_setup_prompts] never replaces a prompt that is set, leaves both
    prompts set, and changes nothing when run again, so the sessions of one
    process all see the prompts the first of them found or installed. *)
Theorem setup_prompts_keeps_existing (sys : sys_prompts) :
  (∀ p, sys_ps1 sys = Some p → sys_ps1 (_setup_prompts sys) = Some p)
  ∧ (∀ p, sys_ps2 sys = Some p → sys_ps2 (_setup_prompts sys) = Some p)
  ∧ is_Some (sys_ps1 (_setup_prompts sys))
  ∧ is_Some (sys_ps2 (_setup_prompts sys))
  ∧ _setup_prompts (_setup_prompts sys) = _setup_prompts sys.
Proof.
  destruct sys as [[p1|] [p2|]]; cbn; repeat split;
    by try (intros p; by intros [= ->]); eauto.
Qed.


(** ** Errors that are not answered *)

Section Unanswered.
Context `{Host}.
Import InteractiveInterpreter.

(** X24: an exception of the parser that is no [SyntaxError] (a
    [ValueError] or an [OverflowError], say) is not answered: the client is
    sent the prompt and nothing more, the buffer keeps the text that was
    refused, and the loop logs the exception and takes the next turn. *)
Theorem parser_error_is_logged (fuel : nat) (w : turn) (rest : list turn)
    (self : t) (line : bytes) (text : string) (e : exn) :
  delivers w line →
  decode_utf8
    (appended (StatefulCommandCompiler.buf (compiler self)) (rstrip_nl line))
    = Some text →
  command_compiler text = CompileError e →
  isinstance e SyntaxError = false →
  loggable e →
  call_loop (S fuel) (w :: rest) self
  = call_loop fuel rest
      {| namespace := namespace self; banner := banner self;
         compiler :=
           {| StatefulCommandCompiler.buf :=
                appended (StatefulCommandCompiler.buf (compiler self))
                  (rstrip_nl line) |};
         real_exec := real_exec self;
         written :=
           written self
             ++ [encode_utf8
                   (if StatefulCommandCompiler.is_partial_command
                         (compiler self)
                    then ps2 else ps1)];
         closed := closed self;
         printed := printed self ++ [e] |}.
Proof.
  intros Hdel Hd Hc Hsyntax [Hexc Hreset].
  rewrite call_loop_step, (one_pass_delivered w self line) by done.
  destruct Hdel as (_ & Hline & Hne).
  rewrite (read_command_settles w _ line) by done.
  cbn [compiler set_written]. rewrite Hd, Hc, Hsyntax, Hreset, Hexc.
  done.
Qed.
End Unanswered.

Lemma parser_error_is_logged_witness :
  @InteractiveInterpreter.call_loop strict_host 2
    [strict_sends (encode_utf8 null_source ++ [NL])] sample_session
  = (InteractiveInterpreter.Serving,
     InteractiveInterpreter.set_printed [ValueError]
       (InteractiveInterpreter.set_compiler
          {| StatefulCommandCompiler.buf := encode_utf8 null_source |}
          (InteractiveInterpreter.set_written [bytes_of ">>> "]
             sample_session))).
Proof.
  rewrite (parser_error_is_logged (H := strict_host) 1
             (strict_sends (encode_utf8 null_source ++ [NL])) []
             sample_session (encode_utf8 null_source ++ [NL])
             null_source ValueError);
    [reflexivity | by repeat split | reflexivity | reflexivity
     | reflexivity | by split].
Defined.

(** ** A negative timeout *)

(** X25: a negative [command_timeout] is truthy, so the wait goes through
    [wait_for], which gives up at once: under the threaded strategy every
    command then ends in [TimeoutError] without any wait. *)
Theorem negative_timeout_expires_at_once
    (self : ThreadedInteractiveInterpreter.t) (j : job) :
  ThreadedInteractiveInterpreter.command_timeout self < 0 →
  ThreadedInteractiveInterpreter._real_exec self j
  = {| elapsed := 0; answer := Raise TimeoutError |}.
Proof.
  intros Hneg. unfold ThreadedInteractiveInterpreter._real_exec, wait_for.
  rewrite bool_decide_eq_true_2 by lia.
  by destruct (Z.leb_spec (ThreadedInteractiveInterpreter.command_timeout self)
                 0); [ | lia].
Qed.

Lemma negative_timeout_expires_at_once_witness :
  ThreadedInteractiveInterpreter._real_exec
    (ThreadedInteractiveInterpreter.init 1%positive BannerNone (Some (-1)))
    {| duration := 0; outcome := Return None; output := EmptyString |}
  = {| elapsed := 0; answer := Raise TimeoutError |}.
Proof.
  apply (negative_timeout_expires_at_once
           (ThreadedInteractiveInterpreter.init 1%positive BannerNone
              (Some (-1)))).
  reflexivity.
Defined.
